(** * Run-log tracer, patch model and wire marshalling of langchain-core

    A shallow embedding of
    - [src/langchain-core/src/tracers/log_stream.ts]: the patch containers
      [RunLogPatch] / [RunLog], the standardization helpers, the run
      inclusion filter and the lifecycle handlers of
      [LogStreamCallbackHandler];
    - [src/langchain-core/src/runnables/remote.ts]: [isSuperset], [revive],
      [serialize] and the [returnExceptions] guard of [RemoteRunnable.batch].

    Conventions of the embedding.
    - JavaScript values are the inductive type [value]; [VUndef] is
      [undefined].  Plain objects are association lists in key order, read
      with [get] (a missing property reads [VUndef]); the standardization
      helpers, [revive] and [serialize] read them at fixed keys only, none
      of which [Object.prototype] has.
    - Objects used as dictionaries ([keyMapByRunId], [counterMapByRunName])
      are finite maps of their own properties, read through
      [Object.prototype] as the code reads them.
    - Documents are values: applying a patch yields a new document, and the
      sharing of objects between a patch and the document it was applied to
      is outside the model.
    - Time values are integers; a time value that is not a number is
      outside the model.
    - A function that can [throw] returns a [result]; an [async] function is
      the function of its resolved value. *)

From stdpp Require Import base strings list gmap pretty.

Set Warnings "-register-all".

(** ** Values *)

(** The classes whose instances [revive] builds with [new]. *)
Inductive Class :=
| Document
| HumanMessage | SystemMessage | ChatMessage | FunctionMessage
| ToolMessage | AIMessage
| HumanMessageChunk | SystemMessageChunk | ChatMessageChunk
| FunctionMessageChunk | ToolMessageChunk | AIMessageChunk
| ChatGenerationChunk | GenerationChunk
| ChatPromptValue | StringPromptValue.

Inductive value :=
| VUndef
| VNull
| VBool (b : bool)
| VNum (n : Z)
| VStr (s : string)
| VDate (iso : string)
| VArr (items : list value)
| VObj (fields : list (string * value))
| VInst (c : Class) (fields : list (string * value)).

Abbreviation KVMap := (list (string * value)).

#[global] Instance Class_eq_dec : EqDecision Class.
Proof. solve_decision. Defined.

(** [obj[key]]: the first binding of [key]. *)
Fixpoint assoc {A} (key : string) (fields : list (string * A)) : option A :=
  match fields with
  | [] => None
  | (k, v) :: rest => if String.eqb k key then Some v else assoc key rest
  end.

(** [obj.key] on a plain object: [undefined] when the property is absent. *)
Definition get (fields : KVMap) (key : string) : value :=
  match assoc key fields with
  | Some v => v
  | None => VUndef
  end.

(** [Object.keys(obj)]. *)
Definition Object_keys {A} (fields : list (string * A)) : list string :=
  map fst fields.

(** [arr.includes(x)] on an array of strings. *)
Definition includes (arr : list string) (x : string) : bool :=
  existsb (String.eqb x) arr.

(** [v === ""]. *)
Definition is_empty_string (v : value) : bool :=
  match v with
  | VStr s => String.eqb s ""
  | _ => false
  end.

(** [v !== undefined]. *)
Definition is_defined (v : value) : bool :=
  match v with
  | VUndef => false
  | _ => true
  end.

(** Outcome of a call that may [throw]. *)
Inductive result (A : Type) :=
| Ok (a : A)
| Throw (message : string).
Arguments Ok {A} a.
Arguments Throw {A} message.

(** ** Runs (the [Run] descriptor of [tracers/base.ts], fields read here) *)

Module Run.
Record t := mk {
  id : string;
  name : string;
  run_type : string;
  tags : option (list string);
  extra_metadata : option value;   (* run.extra?.metadata *)
  start_time : Z;
  end_time : option Z;
  inputs : KVMap;
  outputs : option KVMap
}.
End Run.

Inductive SchemaFormat := original | streaming_events.

(** ** Standardization layer *)

Definition passthrough_run_types : list string := ["retriever"; "llm"; "prompt"].

Definition _getStandardizedInputs (run : Run.t) (schemaFormat : SchemaFormat)
  : result value :=
  match schemaFormat with
  | original =>
      Throw ("Do not assign inputs with original schema drop the key for now. "
             +:+ "When inputs are added to streamLog they should be added with "
             +:+ "standardized schema for streaming events.")
  | streaming_events =>
      let inputs := Run.inputs run in
      if includes passthrough_run_types (Run.run_type run) then Ok (VObj inputs)
      else if (length (Object_keys inputs) =? 1)%nat
              && is_empty_string (get inputs "input")
      then Ok VUndef
      else Ok (get inputs "input")
  end.

(** [run.outputs] as a value: the mapping, or [undefined] before completion. *)
Definition outputs_value (outputs : option KVMap) : value :=
  match outputs with
  | Some fields => VObj fields
  | None => VUndef
  end.

Definition _getStandardizedOutputs (run : Run.t) (schemaFormat : SchemaFormat)
  : value :=
  let outputs := Run.outputs run in
  match schemaFormat with
  | original => outputs_value outputs
  | streaming_events =>
      if includes passthrough_run_types (Run.run_type run)
      then outputs_value outputs
      else match outputs with
           | Some fields =>
               if (length (Object_keys fields) =? 1)%nat
                  && is_defined (get fields "output")
               then get fields "output"
               else VObj fields
           | None => VUndef
           end
  end.

(** The unwrapping rule as the specification words it: a mapping is
    unwrapped exactly when it consists of the single entry [key]. *)
Definition spec_unwrap (key : string) (fields : KVMap) : value :=
  match fields with
  | [(k, v)] => if String.eqb k key then v else VObj fields
  | _ => VObj fields
  end.

Definition spec_standardized_inputs (run : Run.t) : value :=
  if includes passthrough_run_types (Run.run_type run)
  then VObj (Run.inputs run)
  else spec_unwrap "input" (Run.inputs run).

(** ** Patch model *)

Inductive OpKind := OpAdd | OpReplace | OpRemove.

(** [JSONPatchOperation]: [{op, path, value}]. *)
Record Operation := mkOp {
  op : OpKind;
  path : string;
  op_value : value
}.

Record OperationResult := mkResult { newDocument : value }.

Record RunLogPatch := mkRunLogPatch { ops : list Operation }.

(** [RunLog extends RunLogPatch]: the inherited [ops] plus [state]. *)
Record RunLog := mkRunLog {
  log_ops : list Operation;
  state : value
}.

Definition RunLog_as_patch (log : RunLog) : RunLogPatch :=
  mkRunLogPatch (log_ops log).

(** [states[states.length - 1]]: [undefined] on an empty array. *)
Definition last_state (states : list OperationResult) : option OperationResult :=
  last states.

Definition undefined_newDocument : string :=
  "TypeError: Cannot read properties of undefined (reading 'newDocument')".

(** The empty document [{}]. *)
Definition empty_document : value := VObj [].

Section PatchContainers.
(** The single-operation primitive of [utils/fast-json-patch]; the
    containers are defined over any such primitive. *)
Variable applyOperation : value -> Operation -> result value.

(** Modelled from the spec: [applyPatch] of [utils/fast-json-patch] (not
    under src/).  It applies the operations in order, each to the document
    the previous one produced, returns one result per operation, and
    fails as a whole when a single operation is invalid. *)
Fixpoint applyPatch (document : value) (patch : list Operation)
  : result (list OperationResult) :=
  match patch with
  | [] => Ok []
  | o :: rest =>
      match applyOperation document o with
      | Throw m => Throw m
      | Ok document' =>
          match applyPatch document' rest with
          | Throw m => Throw m
          | Ok results => Ok (mkResult document' :: results)
          end
      end
  end.

(** [RunLogPatch.concat]. *)
Definition RunLogPatch_concat (this other : RunLogPatch) : result RunLog :=
  let all_ops := ops this ++ ops other in
  match applyPatch empty_document all_ops with
  | Throw m => Throw m
  | Ok states =>
      match last_state states with
      | None => Throw undefined_newDocument
      | Some s => Ok (mkRunLog all_ops (newDocument s))
      end
  end.

(** [RunLog.concat]. *)
Definition RunLog_concat (this : RunLog) (other : RunLogPatch) : result RunLog :=
  let all_ops := log_ops this ++ ops other in
  match applyPatch (state this) (ops other) with
  | Throw m => Throw m
  | Ok states =>
      match last_state states with
      | None => Throw undefined_newDocument
      | Some s => Ok (mkRunLog all_ops (newDocument s))
      end
  end.

(** [RunLog.fromRunLogPatch]. *)
Definition RunLog_fromRunLogPatch (patch : RunLogPatch) : result RunLog :=
  match applyPatch empty_document (ops patch) with
  | Throw m => Throw m
  | Ok states =>
      match last_state states with
      | None => Throw undefined_newDocument
      | Some s => Ok (mkRunLog (ops patch) (newDocument s))
      end
  end.

(** The document reached by replaying an operation list: the content of
    the [RunLog] invariant "state = apply ops to the start document". *)
Fixpoint replay (document : value) (patch : list Operation) : result value :=
  match patch with
  | [] => Ok document
  | o :: rest =>
      match applyOperation document o with
      | Throw m => Throw m
      | Ok document' => replay document' rest
      end
  end.
End PatchContainers.

(** ** Applying one operation to a document *)

Definition slash : Ascii.ascii := Ascii.ascii_of_nat 47.

(** [path.split("/")]. *)
Fixpoint split_slash (s : string) : list string :=
  match s with
  | EmptyString => [""]
  | String c rest =>
      if Ascii.eqb c slash then "" :: split_slash rest
      else match split_slash rest with
           | [] => [String c ""]
           | seg :: segs => String c seg :: segs
           end
  end.

(** The segments of a pointer: none for the document root [""], otherwise
    what follows the leading slash. *)
Definition pointer_segments (p : string) : option (list string) :=
  match p with
  | EmptyString => Some []
  | String c rest => if Ascii.eqb c slash then Some (split_slash rest) else None
  end.

Definition digit_of (c : Ascii.ascii) : option nat :=
  let n := Ascii.nat_of_ascii c in
  if (48 <=? n)%nat && (n <=? 57)%nat then Some (n - 48)%nat else None.

Fixpoint parse_index_go (s : string) (acc : nat) : option nat :=
  match s with
  | EmptyString => Some acc
  | String c rest =>
      match digit_of c with
      | Some d => parse_index_go rest (10 * acc + d)%nat
      | None => None
      end
  end.

(** An array index written in decimal. *)
Definition parse_index (s : string) : option nat :=
  match s with
  | EmptyString => None
  | _ => parse_index_go s 0
  end.

(** [obj[key] = v]: overwrite in place, or append a new property. *)
Fixpoint set_field (key : string) (v : value) (fields : KVMap) : KVMap :=
  match fields with
  | [] => [(key, v)]
  | (k, w) :: rest =>
      if String.eqb k key then (k, v) :: rest
      else (k, w) :: set_field key v rest
  end.

(** [delete obj[key]]. *)
Fixpoint remove_field (key : string) (fields : KVMap) : KVMap :=
  match fields with
  | [] => []
  | (k, w) :: rest =>
      if String.eqb k key then rest else (k, w) :: remove_field key rest
  end.

Definition has_field (key : string) (fields : KVMap) : bool :=
  match assoc key fields with
  | Some _ => true
  | None => false
  end.

Definition invalid_operation : string := "JsonPatchError: invalid operation".

(** The operation at its last segment, inside an object. *)
Definition apply_in_object (kind : OpKind) (v : value) (key : string)
    (fields : KVMap) : result KVMap :=
  match kind with
  | OpAdd => Ok (set_field key v fields)
  | OpReplace =>
      if has_field key fields then Ok (set_field key v fields)
      else Throw invalid_operation
  | OpRemove =>
      if has_field key fields then Ok (remove_field key fields)
      else Throw invalid_operation
  end.

(** The operation at its last segment, inside a sequence; [-] appends. *)
Definition apply_in_array (kind : OpKind) (v : value) (key : string)
    (items : list value) : result (list value) :=
  match kind with
  | OpAdd =>
      if String.eqb key "-" then Ok (items ++ [v])
      else match parse_index key with
           | Some i =>
               if (i <=? length items)%nat
               then Ok (take i items ++ v :: drop i items)
               else Throw invalid_operation
           | None => Throw invalid_operation
           end
  | OpReplace =>
      match parse_index key with
      | Some i =>
          if (i <? length items)%nat then Ok (<[i:=v]> items)
          else Throw invalid_operation
      | None => Throw invalid_operation
      end
  | OpRemove =>
      match parse_index key with
      | Some i =>
          if (i <? length items)%nat then Ok (delete i items)
          else Throw invalid_operation
      | None => Throw invalid_operation
      end
  end.

Definition apply_leaf (kind : OpKind) (v : value) (key : string)
    (document : value) : result value :=
  match document with
  | VObj fields =>
      match apply_in_object kind v key fields with
      | Ok fields' => Ok (VObj fields')
      | Throw m => Throw m
      end
  | VInst c fields =>
      match apply_in_object kind v key fields with
      | Ok fields' => Ok (VInst c fields')
      | Throw m => Throw m
      end
  | VArr items =>
      match apply_in_array kind v key items with
      | Ok items' => Ok (VArr items')
      | Throw m => Throw m
      end
  | _ => Throw invalid_operation
  end.

(** The child of a container under a segment. *)
Definition child_at (key : string) (document : value) : option value :=
  match document with
  | VObj fields | VInst _ fields => assoc key fields
  | VArr items =>
      match parse_index key with
      | Some i => items !! i
      | None => None
      end
  | _ => None
  end.

(** Put back a child that exists under a segment. *)
Definition with_child (key : string) (child : value) (document : value) : value :=
  match document with
  | VObj fields => VObj (set_field key child fields)
  | VInst c fields => VInst c (set_field key child fields)
  | VArr items =>
      match parse_index key with
      | Some i => VArr (<[i:=child]> items)
      | None => document
      end
  | _ => document
  end.

Fixpoint apply_at (kind : OpKind) (v : value) (segments : list string)
    (document : value) : result value :=
  match segments with
  | [] =>
      match kind with
      | OpRemove => Ok VNull
      | _ => Ok v
      end
  | key :: rest =>
      match rest with
      | [] => apply_leaf kind v key document
      | _ :: _ =>
          match child_at key document with
          | None => Throw invalid_operation
          | Some child =>
              match apply_at kind v rest child with
              | Throw m => Throw m
              | Ok child' => Ok (with_child key child' document)
              end
          end
      end
  end.

(** Modelled from the spec: [applyOperation] of [utils/fast-json-patch] (not
    under src/).  An operation is [add] (append or set), [replace] (must
    target an existing path) or [remove], at a slash-delimited pointer whose
    segments are literal keys or [-]; an operation on a missing path or with
    a malformed pointer is invalid. *)
Definition applyOperation (document : value) (o : Operation) : result value :=
  match pointer_segments (path o) with
  | None => Throw invalid_operation
  | Some segments => apply_at (op o) (op_value o) segments document
  end.

(** ** Dictionaries kept in object literals *)

(** [keyMapByRunId] and [counterMapByRunName] are initialised with [{}]: a
    read [obj[key]] that finds no own property [key] is answered by
    [Object.prototype].  The own properties are a finite map; an inherited
    member is kept as the text it gives when it is concatenated or
    interpolated (as Node prints it), which is all the tracer does with what
    it reads. *)
Definition Object_prototype_methods : list string :=
  ["__defineGetter__"; "__defineSetter__"; "hasOwnProperty";
   "__lookupGetter__"; "__lookupSetter__"; "isPrototypeOf";
   "propertyIsEnumerable"; "toString"; "valueOf"; "toLocaleString"].

(** The text of the member of [Object.prototype] named [key], if any:
    [constructor] is the function [Object], [__proto__] reads the prototype
    itself, the others are methods. *)
Definition inherited (key : string) : option string :=
  if String.eqb key "constructor" then
    Some "function Object() { [native code] }"
  else if String.eqb key "__proto__" then Some "[object Object]"
  else if includes Object_prototype_methods key then
    Some ("function " +:+ key +:+ "() { [native code] }")
  else None.

(** [obj[key]]; [None] is [undefined].  [of_text] makes the text of an
    inherited member a value of the dictionary. *)
Definition lookup_property {A} (of_text : string -> A) (obj : gmap string A)
    (key : string) : option A :=
  match obj !! key with
  | Some v => Some v
  | None => of_text <$> inherited key
  end.

(** [obj[key] = v] for a number or a string [v]: the inherited setter of
    [__proto__] ignores such a value, any other key becomes an own
    property. *)
Definition assign_property {A} (key : string) (v : A) (obj : gmap string A)
  : gmap string A :=
  if String.eqb key "__proto__" then obj else <[key := v]> obj.

(** What a read of [counterMapByRunName] gives: a number, or a text (an
    inherited member, or what [+= 1] made of one). *)
Inductive counter :=
| CNum (n : nat)
| CText (s : string).

(** [c + 1]: addition on a number, concatenation otherwise. *)
Definition increment (c : counter) : counter :=
  match c with
  | CNum n => CNum (n + 1)
  | CText s => CText (s +:+ "1")
  end.

(** ** The tracer: [LogStreamCallbackHandler] *)

Record LogStreamCallbackHandler := mkHandler {
  autoClose : bool;
  includeNames : option (list string);
  includeTypes : option (list string);
  includeTags : option (list string);
  excludeNames : option (list string);
  excludeTypes : option (list string);
  excludeTags : option (list string);
  _schemaFormat : SchemaFormat;
  rootId : option string;
  keyMapByRunId : gmap string string;
  counterMapByRunName : gmap string counter;
  (* the output channel: whether [writer.close()] ran, and what was written *)
  writer_closed : bool;
  written : list RunLogPatch
}.

(** [LogStreamCallbackHandlerInput]. *)
Record LogStreamCallbackHandlerInput := mkInput {
  in_autoClose : option bool;
  in_includeNames : option (list string);
  in_includeTypes : option (list string);
  in_includeTags : option (list string);
  in_excludeNames : option (list string);
  in_excludeTypes : option (list string);
  in_excludeTags : option (list string);
  in_schemaFormat : option SchemaFormat
}.

(** The constructor. *)
Definition new_LogStreamCallbackHandler (fields : LogStreamCallbackHandlerInput)
  : LogStreamCallbackHandler :=
  {| autoClose := default true (in_autoClose fields);
     includeNames := in_includeNames fields;
     includeTypes := in_includeTypes fields;
     includeTags := in_includeTags fields;
     excludeNames := in_excludeNames fields;
     excludeTypes := in_excludeTypes fields;
     excludeTags := in_excludeTags fields;
     _schemaFormat := default original (in_schemaFormat fields);
     rootId := None;
     keyMapByRunId := ∅;
     counterMapByRunName := ∅;
     writer_closed := false;
     written := [] |}.

Definition set_rootId (v : option string) (h : LogStreamCallbackHandler) :=
  mkHandler (autoClose h) (includeNames h) (includeTypes h) (includeTags h)
    (excludeNames h) (excludeTypes h) (excludeTags h) (_schemaFormat h)
    v (keyMapByRunId h) (counterMapByRunName h) (writer_closed h) (written h).

Definition set_keyMapByRunId (v : gmap string string) (h : LogStreamCallbackHandler) :=
  mkHandler (autoClose h) (includeNames h) (includeTypes h) (includeTags h)
    (excludeNames h) (excludeTypes h) (excludeTags h) (_schemaFormat h)
    (rootId h) v (counterMapByRunName h) (writer_closed h) (written h).

Definition set_counterMapByRunName (v : gmap string counter) (h : LogStreamCallbackHandler) :=
  mkHandler (autoClose h) (includeNames h) (includeTypes h) (includeTags h)
    (excludeNames h) (excludeTypes h) (excludeTags h) (_schemaFormat h)
    (rootId h) (keyMapByRunId h) v (writer_closed h) (written h).

Definition set_writer_closed (v : bool) (h : LogStreamCallbackHandler) :=
  mkHandler (autoClose h) (includeNames h) (includeTypes h) (includeTags h)
    (excludeNames h) (excludeTypes h) (excludeTags h) (_schemaFormat h)
    (rootId h) (keyMapByRunId h) (counterMapByRunName h) v (written h).

Definition set_written (v : list RunLogPatch) (h : LogStreamCallbackHandler) :=
  mkHandler (autoClose h) (includeNames h) (includeTypes h) (includeTags h)
    (excludeNames h) (excludeTypes h) (excludeTags h) (_schemaFormat h)
    (rootId h) (keyMapByRunId h) (counterMapByRunName h) (writer_closed h) v.

(** [run.id === this.rootId]. *)
Definition is_root (h : LogStreamCallbackHandler) (run_id : string) : bool :=
  match rootId h with
  | Some r => String.eqb run_id r
  | None => false
  end.

(** [set !== undefined && set.includes(x)], the disjunct an include set adds. *)
Definition configured_includes (set : option (list string)) (x : string) : bool :=
  match set with
  | Some l => includes l x
  | None => false
  end.

Definition is_configured {A} (set : option A) : bool :=
  match set with
  | Some _ => true
  | None => false
  end.

Definition _includeRun (h : LogStreamCallbackHandler) (run : Run.t) : bool :=
  if is_root h (Run.id run) then false
  else
    let runTags := default [] (Run.tags run) in
    let include :=
      negb (is_configured (includeNames h))
      && negb (is_configured (includeTags h))
      && negb (is_configured (includeTypes h)) in
    let include :=
      match includeNames h with
      | Some names => include || includes names (Run.name run)
      | None => include
      end in
    let include :=
      match includeTypes h with
      | Some types => include || includes types (Run.run_type run)
      | None => include
      end in
    let include :=
      match includeTags h with
      | Some tags =>
          include || is_configured (find (fun tag => includes tags tag) runTags)
      | None => include
      end in
    let include :=
      match excludeNames h with
      | Some names => include && negb (includes names (Run.name run))
      | None => include
      end in
    let include :=
      match excludeTypes h with
      | Some types => include && negb (includes types (Run.run_type run))
      | None => include
      end in
    let include :=
      match excludeTags h with
      | Some tags =>
          include && forallb (fun tag => negb (includes tags tag)) runTags
      | None => include
      end in
    include.

(** Handlers thread the tracer through and may throw. *)
Definition M (A : Type) : Type :=
  LogStreamCallbackHandler -> LogStreamCallbackHandler * result A.

Definition ret {A} (a : A) : M A := fun h => (h, Ok a).

Definition bind {A B} (m : M A) (k : A -> M B) : M B :=
  fun h =>
    match m h with
    | (h', Ok a) => k a h'
    | (h', Throw msg) => (h', Throw msg)
    end.

Definition lift {A} (r : result A) : M A := fun h => (h, r).

Definition gets {A} (f : LogStreamCallbackHandler -> A) : M A :=
  fun h => (h, Ok (f h)).

Definition modify (f : LogStreamCallbackHandler -> LogStreamCallbackHandler)
  : M unit :=
  fun h => (f h, Ok tt).

(** [try { body } finally { cleanup }]: the cleanup always runs, and what it
    throws replaces the outcome of the body. *)
Definition try_finally (body cleanup : M unit) : M unit :=
  fun h =>
    let '(h1, r1) := body h in
    match cleanup h1 with
    | (h2, Ok _) => (h2, r1)
    | (h2, Throw msg) => (h2, Throw msg)
    end.

Declare Scope handler_scope.
Delimit Scope handler_scope with handler.
Notation "'let!' x ':=' m 'in' k" := (bind m (fun x => k))
  (at level 10, x name, m at level 100, k at level 200) : handler_scope.
Notation "m ';;' k" := (bind m (fun _ => k))
  (at level 100, k at level 200, right associativity) : handler_scope.

Definition write_after_close : string := "TypeError: the stream is closed".

(** Modelled from the spec: the writer of the output channel
    ([TransformStream], a platform object).  A write appends to what the
    consumer will read; after close, writes fail. *)
Definition writer_write (patch : RunLogPatch) : M unit :=
  fun h =>
    if writer_closed h then (h, Throw write_after_close)
    else (set_written (written h ++ [patch]) h, Ok tt).

Definition writer_close : M unit :=
  fun h =>
    if writer_closed h then (h, Throw write_after_close)
    else (set_writer_closed true h, Ok tt).

(** [count === 1 ? run.name : `${run.name}:${count}`] for a number. *)
Definition run_key (run_name : string) (count : nat) : string :=
  if (count =? 1)%nat then run_name else run_name +:+ ":" +:+ pretty count.

(** The same for whatever was read from the counter: a text is not [1]. *)
Definition key_of_count (run_name : string) (count : counter) : string :=
  match count with
  | CNum n => run_key run_name n
  | CText s => run_name +:+ ":" +:+ s
  end.

(** A [Date] holds a valid time value up to 8.64e15 milliseconds either
    side of the epoch; [toISOString] throws on any other. *)
Definition max_time_value : Z := 8640000000000000.

Definition valid_time (t : Z) : bool := (Z.abs t <=? max_time_value)%Z.

Definition invalid_time_value : string := "RangeError: Invalid time value".

(** [x.message] and the like on an arbitrary value. *)
Definition prop (v : value) (key : string) : value :=
  match v with
  | VObj fields | VInst _ fields => get fields key
  | _ => VUndef
  end.

Definition isChatGenerationChunk (x : value) : bool :=
  is_defined x && is_defined (prop x "message").

Section Tracer.
(** The text of a valid time value, a platform function. *)
Variable toISOString : Z -> string.

(** [new Date(t).toISOString()]. *)
Definition Date_toISOString (t : Z) : result string :=
  if valid_time t then Ok (toISOString t) else Throw invalid_time_value.

Definition root_document (run : Run.t) : value :=
  VObj [("id", VStr (Run.id run));
        ("name", VStr (Run.name run));
        ("type", VStr (Run.run_type run));
        ("streamed_output", VArr []);
        ("final_output", VUndef);
        ("logs", VObj [])].

(** The entry literal of [onRunCreate], for a run whose start time
    [onRunCreate] could format. *)
Definition base_logEntry (run : Run.t) : KVMap :=
  [("id", VStr (Run.id run));
   ("name", VStr (Run.name run));
   ("type", VStr (Run.run_type run));
   ("tags", VArr (map VStr (default [] (Run.tags run))));
   ("metadata",
    match Run.extra_metadata run with
    | None | Some VUndef | Some VNull => VObj []
    | Some metadata => metadata
    end);
   ("start_time", VStr (toISOString (Run.start_time run)));
   ("streamed_output", VArr []);
   ("streamed_output_str", VArr []);
   ("final_output", VUndef);
   ("end_time", VUndef)].

Local Open Scope handler_scope.

(** The first step of [onRunCreate]: the first run seen becomes the root
    and the document is initialised. *)
Definition register_root (run : Run.t) : M unit :=
  let! root := gets rootId in
  match root with
  | None =>
      modify (set_rootId (Some (Run.id run))) ;;
      writer_write (mkRunLogPatch [mkOp OpReplace "" (root_document run)])
  | Some _ => ret tt
  end.

(** The counter of the run's name is created at 0 if the read gives
    undefined, and incremented; what is read back decides the key of the
    run.  (The two reads after the test are never undefined.) *)
Definition assign_key (run : Run.t) (h : LogStreamCallbackHandler)
  : LogStreamCallbackHandler :=
  let counters :=
    match lookup_property CText (counterMapByRunName h) (Run.name run) with
    | None => assign_property (Run.name run) (CNum 0) (counterMapByRunName h)
    | Some _ => counterMapByRunName h
    end in
  let counters :=
    assign_property (Run.name run)
      (increment
         (default (CNum 0) (lookup_property CText counters (Run.name run))))
      counters in
  let count :=
    default (CNum 0) (lookup_property CText counters (Run.name run)) in
  set_keyMapByRunId
    (assign_property (Run.id run) (key_of_count (Run.name run) count)
       (keyMapByRunId h))
    (set_counterMapByRunName counters h).

(** The [LogEntry] of a run; [inputs] only in the new schema format. *)
Definition new_logEntry (run : Run.t) (format : SchemaFormat) : result KVMap :=
  match format with
  | streaming_events =>
      match _getStandardizedInputs run format with
      | Ok inputs => Ok (set_field "inputs" inputs (base_logEntry run))
      | Throw m => Throw m
      end
  | original => Ok (base_logEntry run)
  end.

(** [onRunCreate(run)].  After the key is assigned, the entry literal
    formats the start time, which throws on an invalid time value. *)
Definition onRunCreate (run : Run.t) : M unit :=
  register_root run ;;
  let! included := gets (fun h => _includeRun h run) in
  if negb included then ret tt
  else
    modify (assign_key run) ;;
    lift (Date_toISOString (Run.start_time run)) ;;
    let! format := gets _schemaFormat in
    let! logEntry := lift (new_logEntry run format) in
    let! key :=
      gets (fun h =>
              default "undefined"
                (lookup_property id (keyMapByRunId h) (Run.id run))) in
    writer_write
      (mkRunLogPatch [mkOp OpAdd ("/logs/" +:+ key) (VObj logEntry)]).

(** The operations [onRunUpdate] collects for a run logged under
    [runName]. *)
Definition update_ops (run : Run.t) (format : SchemaFormat) (runName : string)
  : result (list Operation) :=
  let ops1 :=
    match format with
    | streaming_events =>
        match _getStandardizedInputs run format with
        | Ok inputs =>
            Ok [mkOp OpReplace ("/logs/" +:+ runName +:+ "/inputs") inputs]
        | Throw m => Throw m
        end
    | original => Ok []
    end in
  match ops1 with
  | Throw m => Throw m
  | Ok ops1 =>
      let ops2 :=
        [mkOp OpAdd ("/logs/" +:+ runName +:+ "/final_output")
           (_getStandardizedOutputs run format)] in
      let ops3 :=
        match Run.end_time run with
        | Some t =>
            match Date_toISOString t with
            | Ok end_time =>
                Ok [mkOp OpAdd ("/logs/" +:+ runName +:+ "/end_time")
                      (VStr end_time)]
            | Throw m => Throw m
            end
        | None => Ok []
        end in
      match ops3 with
      | Ok ops3 => Ok (ops1 ++ ops2 ++ ops3)
      | Throw m => Throw m
      end
  end.

(** The [try] block of [onRunUpdate]. *)
Definition update_entry (run : Run.t) : M unit :=
  let! key := gets (fun h => lookup_property id (keyMapByRunId h) (Run.id run)) in
  match key with
  | None => ret tt
  | Some runName =>
      let! format := gets _schemaFormat in
      let! ops := lift (update_ops run format runName) in
      writer_write (mkRunLogPatch ops)
  end.

(** The [finally] block of [onRunUpdate]. *)
Definition finish_root (run : Run.t) : M unit :=
  let! root := gets (fun h => is_root h (Run.id run)) in
  if root then
    let! format := gets _schemaFormat in
    writer_write
      (mkRunLogPatch
         [mkOp OpReplace "/final_output" (_getStandardizedOutputs run format)]) ;;
    let! close := gets autoClose in
    if close then writer_close else ret tt
  else ret tt.

Definition onRunUpdate (run : Run.t) : M unit :=
  try_finally (update_entry run) (finish_root run).

(** [onLLMNewToken(run, token, kwargs)]; [chunk] is [kwargs?.chunk]. *)
Definition onLLMNewToken (run : Run.t) (token : string) (chunk : value)
  : M unit :=
  let! key := gets (fun h => lookup_property id (keyMapByRunId h) (Run.id run)) in
  match key with
  | None => ret tt
  | Some runName =>
      let isChatModel := is_defined (get (Run.inputs run) "messages") in
      let streamedOutputValue :=
        if isChatModel then
          if isChatGenerationChunk chunk then chunk
          else VInst AIMessageChunk [("content", VStr token)]
        else VStr token in
      writer_write
        (mkRunLogPatch
           [mkOp OpAdd ("/logs/" +:+ runName +:+ "/streamed_output_str/-")
              (VStr token);
            mkOp OpAdd ("/logs/" +:+ runName +:+ "/streamed_output/-")
              streamedOutputValue])
  end.

(** One turn of the loop of [tapOutputIterable(runId, output)], for one
    [chunk] of the tapped output. *)
Definition tapOutputIterable_chunk (runId : string) (chunk : value) : M unit :=
  let! root := gets (fun h => is_root h runId) in
  if root then ret tt
  else
    let! key := gets (fun h => lookup_property id (keyMapByRunId h) runId) in
    match key with
    | Some (String _ _ as k) =>
        writer_write
          (mkRunLogPatch
             [mkOp OpAdd ("/logs/" +:+ k +:+ "/streamed_output/-") chunk])
    | _ => ret tt
    end.

(** The lifecycle notifications the execution engine delivers. *)
Inductive Notification :=
| RunCreate (run : Run.t)
| RunUpdate (run : Run.t)
| LLMNewToken (run : Run.t) (token : string) (chunk : value)
| TapChunk (runId : string) (chunk : value).

Definition notify (n : Notification) : M unit :=
  match n with
  | RunCreate run => onRunCreate run
  | RunUpdate run => onRunUpdate run
  | LLMNewToken run token chunk => onLLMNewToken run token chunk
  | TapChunk runId chunk => tapOutputIterable_chunk runId chunk
  end.

(** The tracer after a sequence of notifications; a notification that
    throws leaves the tracer as it was at the throw. *)
Definition deliver (h : LogStreamCallbackHandler) (ns : list Notification)
  : LogStreamCallbackHandler :=
  fold_left (fun h n => fst (notify n h)) ns h.

(** All operations written to the channel, in order. *)
Definition written_ops (h : LogStreamCallbackHandler) : list Operation :=
  concat (map ops (written h)).
End Tracer.

(** ** Marshalling protocol *)

(** [isSuperset(set, subset)]. *)
Definition isSuperset (set subset : list string) : bool :=
  forallb (fun elem => includes set elem) subset.

(** [v === s] for a string literal [s]. *)
Definition is_string (v : value) (s : string) : bool :=
  match v with
  | VStr t => String.eqb t s
  | _ => false
  end.

(** The message class that [obj.type] selects in [revive], in the order of
    its tests. *)
Definition message_class_of_type (type : value) : option Class :=
  if is_string type "HumanMessage" || is_string type "human" then Some HumanMessage
  else if is_string type "SystemMessage" || is_string type "system" then Some SystemMessage
  else if is_string type "ChatMessage" || is_string type "chat" then Some ChatMessage
  else if is_string type "FunctionMessage" || is_string type "function" then Some FunctionMessage
  else if is_string type "ToolMessage" || is_string type "tool" then Some ToolMessage
  else if is_string type "AIMessage" || is_string type "ai" then Some AIMessage
  else if is_string type "HumanMessageChunk" then Some HumanMessageChunk
  else if is_string type "SystemMessageChunk" then Some SystemMessageChunk
  else if is_string type "ChatMessageChunk" then Some ChatMessageChunk
  else if is_string type "FunctionMessageChunk" then Some FunctionMessageChunk
  else if is_string type "ToolMessageChunk" then Some ToolMessageChunk
  else if is_string type "AIMessageChunk" then Some AIMessageChunk
  else None.

(** Modelled from the spec: the classes of [messages/index.ts],
    [documents/index.ts], [outputs.ts] and [prompt_values.ts] (not under
    src/).  An instance is its class and the fields its constructor was
    given, which it exposes as properties of the same names;
    [new StringPromptValue(text)] keeps its argument as [value]. *)
Definition new (c : Class) (fields : KVMap) : value := VInst c fields.

(** The object [revive] passes to the constructor of a message class. *)
Definition message_fields (c : Class) (obj : KVMap) : KVMap :=
  match c with
  | ChatMessage | ChatMessageChunk =>
      [("content", get obj "content"); ("role", get obj "role")]
  | FunctionMessage | FunctionMessageChunk =>
      [("content", get obj "content"); ("name", get obj "name")]
  | ToolMessage | ToolMessageChunk =>
      [("content", get obj "content"); ("tool_call_id", get obj "tool_call_id")]
  | _ => [("content", get obj "content")]
  end.

(** [revive(obj[key])], read off the revived fields; [revive(undefined)] is
    [undefined]. *)
Definition revived_field (revived : list (string * result value)) (key : string)
  : result value :=
  match assoc key revived with
  | Some r => r
  | None => Ok VUndef
  end.

(** The fields of [Object.fromEntries(keysArr.map(innerRevive))]; the first
    field whose revival throws makes the whole call throw. *)
Fixpoint collect {K A} (entries : list (K * result A)) : result (list (K * A)) :=
  match entries with
  | [] => Ok []
  | (k, Throw m) :: _ => Throw m
  | (k, Ok v) :: rest =>
      match collect rest with
      | Ok vs => Ok ((k, v) :: vs)
      | Throw m => Throw m
      end
  end.

(** [arr.map(f)] when [f] may throw. *)
Fixpoint collect_list {A} (items : list (result A)) : result (list A) :=
  match items with
  | [] => Ok []
  | Throw m :: _ => Throw m
  | Ok v :: rest =>
      match collect_list rest with
      | Ok vs => Ok (v :: vs)
      | Throw m => Throw m
      end
  end.

Definition map_is_not_a_function : string :=
  "TypeError: obj.messages.map is not a function".

Section Revive.
(** The constant [RUN_KEY] of [outputs.ts]. *)
Variable RUN_KEY : string.

(** The object branch of [revive]: [obj] holds the fields of the incoming
    mapping, [revived] the same fields after [revive]. *)
Definition revive_object (obj : KVMap) (revived : list (string * result value))
  : result value :=
  let keys := Object_keys obj in
  let type := get obj "type" in
  let generic :=
    match collect revived with
    | Ok fields => Ok (VObj fields)
    | Throw m => Throw m
    end in
  let string_prompt :=
    if isSuperset keys ["text"]
    then Ok (new StringPromptValue [("value", get obj "text")])
    else generic in
  let chat_prompt :=
    if isSuperset keys ["messages"] then
      match get obj "messages" with
      | VArr _ =>
          match revived_field revived "messages" with
          | Ok messages => Ok (new ChatPromptValue [("messages", messages)])
          | Throw m => Throw m
          end
      | _ => Throw map_is_not_a_function
      end
    else string_prompt in
  let llm_result :=
    if isSuperset keys ["generations"; "run"; "type"]
       && is_string type "LLMResult" then
      match revived_field revived "generations" with
      | Ok generations =>
          Ok (VObj [("generations", generations);
                    ("llmOutput", get obj "llm_output");
                    (RUN_KEY, get obj "run")])
      | Throw m => Throw m
      end
    else chat_prompt in
  let agent_finish :=
    if isSuperset keys ["return_values"; "log"; "type"]
       && is_string type "AgentFinish" then
      Ok (VObj [("returnValues", get obj "return_values");
                ("log", get obj "log")])
    else llm_result in
  let agent_action :=
    if isSuperset keys ["tool"; "tool_input"; "log"; "type"]
       && is_string type "AgentAction" then
      Ok (VObj [("tool", get obj "tool");
                ("toolInput", get obj "tool_input");
                ("log", get obj "log")])
    else agent_finish in
  let generation :=
    if isSuperset keys ["text"; "generation_info"; "type"] then
      if is_string type "ChatGenerationChunk" then
        match revived_field revived "message" with
        | Ok message =>
            Ok (new ChatGenerationChunk
                  [("message", message);
                   ("text", get obj "text");
                   ("generationInfo", get obj "generation_info")])
        | Throw m => Throw m
        end
      else if is_string type "ChatGeneration" then
        match revived_field revived "message" with
        | Ok message =>
            Ok (VObj [("message", message);
                      ("text", get obj "text");
                      ("generationInfo", get obj "generation_info")])
        | Throw m => Throw m
        end
      else if is_string type "GenerationChunk" then
        Ok (new GenerationChunk
              [("text", get obj "text");
               ("generationInfo", get obj "generation_info")])
      else if is_string type "Generation" then
        Ok (VObj [("text", get obj "text");
                  ("generationInfo", get obj "generation_info")])
      else agent_action
    else agent_action in
  let message :=
    if isSuperset keys ["content"; "type"; "additional_kwargs"] then
      match message_class_of_type type with
      | Some c => Ok (new c (message_fields c obj))
      | None => generation
      end
    else generation in
  if isSuperset keys ["page_content"; "metadata"]
  then Ok (new Document [("pageContent", get obj "page_content");
                         ("metadata", get obj "metadata")])
  else message.

Fixpoint revive (obj : value) : result value :=
  match obj with
  | VArr items =>
      match collect_list
              ((fix each (l : list value) : list (result value) :=
                  match l with
                  | [] => []
                  | x :: rest => revive x :: each rest
                  end) items) with
      | Ok items' => Ok (VArr items')
      | Throw m => Throw m
      end
  | VObj fields | VInst _ fields =>
      revive_object fields
        ((fix each (l : KVMap) : list (string * result value) :=
            match l with
            | [] => []
            | (k, v) :: rest => (k, revive v) :: each rest
            end) fields)
  | _ => Ok obj
  end.
End Revive.

(** Modelled from the spec: [isBaseMessage] of [messages/index.ts] (not under
    src/): the message-like values are the instances of the message
    classes. *)
Definition isBaseMessage (input : value) : bool :=
  match input with
  | VInst (HumanMessage | SystemMessage | ChatMessage | FunctionMessage
          | ToolMessage | AIMessage | HumanMessageChunk | SystemMessageChunk
          | ChatMessageChunk | FunctionMessageChunk | ToolMessageChunk
          | AIMessageChunk) _ => true
  | _ => false
  end.

(** Modelled from the spec: [ToolMessage.isInstance] and
    [ChatMessage.isInstance] of [messages/index.ts] (not under src/): the
    subtypes that carry one extra identifying field. *)
Definition ToolMessage_isInstance (c : Class) : bool :=
  match c with
  | ToolMessage | ToolMessageChunk => true
  | _ => false
  end.

Definition ChatMessage_isInstance (c : Class) : bool :=
  match c with
  | ChatMessage | ChatMessageChunk => true
  | _ => false
  end.

Section Serialize.
(** The discriminant [input._getType()] of a message class, declared in
    [messages/index.ts]. *)
Variable _getType : Class -> string.

Definition serializedMessage (c : Class) (input : KVMap) : KVMap :=
  let base :=
    [("content", get input "content");
     ("type", VStr (_getType c));
     ("additional_kwargs", get input "additional_kwargs");
     ("name", get input "name");
     ("example", VBool false)] in
  if ToolMessage_isInstance c
  then set_field "tool_call_id" (get input "tool_call_id") base
  else if ChatMessage_isInstance c
  then set_field "role" (get input "role") base
  else base.

Fixpoint serialize (input : value) : value :=
  match input with
  | VArr items => VArr (map serialize items)
  | VInst c fields =>
      if isBaseMessage input then VObj (serializedMessage c fields)
      else VObj ((fix each (l : KVMap) : KVMap :=
                    match l with
                    | [] => []
                    | (k, v) :: rest => (k, serialize v) :: each rest
                    end) fields)
  | VObj fields =>
      VObj ((fix each (l : KVMap) : KVMap :=
               match l with
               | [] => []
               | (k, v) :: rest => (k, serialize v) :: each rest
               end) fields)
  | _ => input
  end.
End Serialize.

(** ** Remote batch calls *)

(** [RunnableBatchOptions]. *)
Record RunnableBatchOptions := mkBatchOptions {
  maxConcurrency : option nat;
  returnExceptions : option bool
}.

(** [batchOptions?.returnExceptions] as a condition. *)
Definition asks_returnExceptions (batchOptions : option RunnableBatchOptions)
  : bool :=
  match batchOptions with
  | Some o => default false (returnExceptions o)
  | None => false
  end.

(** The own properties of a [RunnableBatchOptions] object. *)
Definition batchOptions_fields (batchOptions : option RunnableBatchOptions)
  : KVMap :=
  match batchOptions with
  | None => []
  | Some o =>
      match maxConcurrency o with
      | Some n => [("maxConcurrency", VNum (Z.of_nat n))]
      | None => []
      end
      ++ match returnExceptions o with
         | Some b => [("returnExceptions", VBool b)]
         | None => []
         end
  end.

(** [{...a, ...b}]. *)
Definition spread (a b : KVMap) : KVMap :=
  fold_left (fun acc kv => set_field (fst kv) (snd kv) acc) b a.

(** [removeCallbacks(options)]. *)
Definition removeCallbacks (options : KVMap) : KVMap :=
  remove_field "callbacks" options.

(** [!v]. *)
Definition falsy (v : value) : bool :=
  match v with
  | VUndef | VNull | VBool false => true
  | VNum n => (n =? 0)%Z
  | VStr s => String.eqb s ""
  | _ => false
  end.

Record Request := mkRequest {
  req_method : string;
  req_path : string;
  req_body : value
}.

(** A remote call threads the list of HTTP requests issued so far. *)
Definition Http (A : Type) : Type := list Request -> list Request * result A.

Definition returnExceptions_unsupported : string :=
  "returnExceptions is not supported for remote clients".

Section RemoteRunnable.
Variable _getType : Class -> string.
Variable RUN_KEY : string.
(** The peer: the JSON body answered to a request ([fetch] and
    [response.json()], platform functions). *)
Variable respond : Request -> result value.
(** [Runnable._separateRunnableConfigFromCallOptions] and
    [Runnable._batchWithConfig] of [runnables/base.ts]. *)
Variable _separateRunnableConfigFromCallOptions : value -> KVMap * value.
Variable _batchWithConfig :
  (list value -> option (list value) -> option RunnableBatchOptions ->
   Http value) ->
  list value -> value -> option RunnableBatchOptions -> Http value.

Variable url : string.

(** [post(path, body)]. *)
Definition post (path : string) (body : value) : Http value :=
  fun issued =>
    let request := mkRequest "POST" (url +:+ path) (serialize _getType body) in
    (issued ++ [request], respond request).

Definition _batch (inputs : list value) (options : option (list value))
    (batchOptions : option RunnableBatchOptions) : Http value :=
  fun issued =>
    if asks_returnExceptions batchOptions
    then (issued, Throw returnExceptions_unsupported)
    else
      let configsAndKwargsArray :=
        option_map (map _separateRunnableConfigFromCallOptions) options in
      let configs := option_map (map fst) configsAndKwargsArray in
      let kwargs :=
        match configsAndKwargsArray with
        | Some l => VArr (map snd l)
        | None => VUndef
        end in
      let config :=
        map (fun c => VObj (spread (removeCallbacks c)
                              (batchOptions_fields batchOptions)))
          (default [] configs) in
      match post "/batch"
              (VObj [("inputs", VArr inputs);
                     ("config", VArr config);
                     ("kwargs", kwargs)]) issued with
      | (issued', Throw m) => (issued', Throw m)
      | (issued', Ok body) =>
          if falsy (prop body "output")
          then (issued', Throw "Invalid response from remote runnable")
          else (issued', revive RUN_KEY (prop body "output"))
      end.

Definition batch (inputs : list value) (options : value)
    (batchOptions : option RunnableBatchOptions) : Http value :=
  fun issued =>
    if asks_returnExceptions batchOptions
    then (issued, Throw returnExceptions_unsupported)
    else _batchWithConfig _batch inputs options batchOptions issued.
End RemoteRunnable.

(** * Properties *)

(** ** Basic facts about the value helpers *)

Lemma includes_elem_of (arr : list string) (x : string) :
  includes arr x = true <-> x ∈ arr.
Proof.
  unfold includes. rewrite existsb_exists. split.
  - intros (y & Hy & Heq). apply String.eqb_eq in Heq. subst y.
    by apply list_elem_of_In.
  - intros Hx. exists x. split; [by apply list_elem_of_In | apply String.eqb_refl].
Qed.

Lemma includes_not_elem_of (arr : list string) (x : string) :
  includes arr x = false <-> x ∉ arr.
Proof.
  rewrite <- includes_elem_of. destruct (includes arr x); split; congruence.
Qed.

Lemma is_empty_string_true (v : value) :
  is_empty_string v = true <-> v = VStr "".
Proof.
  destruct v; simpl; split; try congruence.
  - intros H. apply String.eqb_eq in H. by subst.
  - intros [= ->]. reflexivity.
Qed.

Lemma is_defined_true (v : value) : is_defined v = true <-> v <> VUndef.
Proof. destruct v; simpl; split; congruence. Qed.

Lemma get_single (k key : string) (v : value) :
  get [(k, v)] key = if String.eqb k key then v else VUndef.
Proof. unfold get. simpl. by destruct (String.eqb k key). Qed.

(** A one-key mapping that has a defined value under [key] is the single
    entry [key]. *)
Lemma single_entry_under (fields : KVMap) (key : string) :
  length (Object_keys fields) = 1%nat -> get fields key <> VUndef ->
  fields = [(key, get fields key)].
Proof.
  destruct fields as [|[k v] [|? ?]]; simpl; try discriminate.
  intros _. rewrite get_single. destruct (String.eqb k key) eqn:E; [|congruence].
  apply String.eqb_eq in E. by subst.
Qed.

Lemma find_is_configured {A} (f : A -> bool) (l : list A) :
  is_configured (find f l) = true <-> exists x, x ∈ l /\ f x = true.
Proof.
  induction l as [|a l IH]; simpl.
  - split; [discriminate | intros (x & Hx & _); by apply elem_of_nil in Hx].
  - destruct (f a) eqn:E; simpl.
    + split; [intros _; exists a; split; [left | done] | done].
    + rewrite IH. split.
      * intros (x & Hx & Hf). exists x. split; [by right | done].
      * intros (x & Hx & Hf). apply elem_of_cons in Hx as [->|Hx]; [congruence|].
        by exists x.
Qed.

(** ** Standardization layer *)

(** C2, as amended.  Under the standardized format, a run of type
    retriever, llm or prompt gets its raw inputs and outputs back unchanged.
    For any other run type the inputs are always replaced by the value under
    key [input] (undefined when the key is missing, whatever other keys
    there are), except that a one-key mapping whose [input] is the empty
    string gives undefined; the outputs are replaced by the value under key
    [output] exactly when the mapping is the single entry [output] with a
    value other than undefined, and are returned unchanged otherwise. *)
Theorem standardized_io_by_run_type (run : Run.t) :
  (Run.run_type run ∈ passthrough_run_types ->
     _getStandardizedInputs run streaming_events = Ok (VObj (Run.inputs run))
     /\ _getStandardizedOutputs run streaming_events
        = outputs_value (Run.outputs run))
  /\ (Run.run_type run ∉ passthrough_run_types ->
      (length (Object_keys (Run.inputs run)) = 1%nat
         /\ get (Run.inputs run) "input" = VStr "" ->
       _getStandardizedInputs run streaming_events = Ok VUndef)
      /\ (~ (length (Object_keys (Run.inputs run)) = 1%nat
             /\ get (Run.inputs run) "input" = VStr "") ->
          _getStandardizedInputs run streaming_events
          = Ok (get (Run.inputs run) "input"))
      /\ (Run.outputs run = None ->
          _getStandardizedOutputs run streaming_events = VUndef)
      /\ (forall fields, Run.outputs run = Some fields ->
          ((exists v, fields = [("output", v)] /\ v <> VUndef) ->
           _getStandardizedOutputs run streaming_events = get fields "output")
          /\ (~ (exists v, fields = [("output", v)] /\ v <> VUndef) ->
              _getStandardizedOutputs run streaming_events = VObj fields))).
Proof.
  split.
  - intros Hin. apply includes_elem_of in Hin.
    unfold _getStandardizedInputs, _getStandardizedOutputs. by rewrite Hin.
  - intros Hout. apply includes_not_elem_of in Hout.
    unfold _getStandardizedInputs, _getStandardizedOutputs. rewrite Hout.
    repeat split.
    + intros [Hlen Hempty]. rewrite Hlen, Hempty. reflexivity.
    + intros Hnot.
      destruct (length (Object_keys (Run.inputs run)) =? 1)%nat eqn:Hlen;
        [|reflexivity].
      destruct (is_empty_string (get (Run.inputs run) "input")) eqn:He;
        [|reflexivity].
      exfalso. apply Hnot. split.
      * by apply Nat.eqb_eq.
      * by apply is_empty_string_true.
    + intros ->. reflexivity.
    + intros (v & -> & Hv). rewrite H. simpl. rewrite get_single. simpl.
      apply is_defined_true in Hv. by rewrite Hv.
    + intros Hnot. rewrite H.
      destruct (length (Object_keys fields) =? 1)%nat eqn:Hlen; [|reflexivity].
      destruct (is_defined (get fields "output")) eqn:Hd; [|reflexivity].
      exfalso. apply Hnot. apply Nat.eqb_eq in Hlen.
      apply is_defined_true in Hd. exists (get fields "output").
      split; [by apply single_entry_under | done].
Qed.

Definition chain_run (inputs : KVMap) (outputs : option KVMap) : Run.t :=
  Run.mk "run-1" "step" "chain" None None 0 None inputs outputs.

Lemma standardized_io_by_run_type_witness :
  _getStandardizedInputs
    (chain_run [("a", VNum 1); ("input", VStr "hello")] None) streaming_events
  = Ok (VStr "hello")
  /\ _getStandardizedOutputs
       (chain_run [] (Some [("output", VNum 7)])) streaming_events
     = VNum 7.
Proof.
  split.
  - destruct (standardized_io_by_run_type
                (chain_run [("a", VNum 1); ("input", VStr "hello")] None))
      as [_ H].
    destruct H as (_ & H & _).
    + vm_compute. intros Hin. by repeat (apply elem_of_cons in Hin as [Hin|Hin]; [discriminate|]); apply elem_of_nil in Hin.
    + apply H. vm_compute. intros [Hlen _]. discriminate.
  - destruct (standardized_io_by_run_type
                (chain_run [] (Some [("output", VNum 7)]))) as [_ H].
    destruct H as (_ & _ & _ & H).
    + vm_compute. intros Hin. by repeat (apply elem_of_cons in Hin as [Hin|Hin]; [discriminate|]); apply elem_of_nil in Hin.
    + destruct (H [("output", VNum 7)] eq_refl) as [H1 _].
      apply H1. exists (VNum 7). split; [reflexivity | discriminate].
Defined.

(** A run with two inputs, neither under key [input]: the specification's
    rule passes the mapping through, the code reads the missing key. *)
Lemma standardized_inputs_not_passed_through :
  let run := chain_run [("a", VNum 1); ("b", VNum 2)] None in
  _getStandardizedInputs run streaming_events = Ok VUndef
  /\ spec_standardized_inputs run = VObj [("a", VNum 1); ("b", VNum 2)]
  /\ _getStandardizedInputs run streaming_events
     <> Ok (spec_standardized_inputs run).
Proof. vm_compute. repeat split; discriminate. Qed.

(** ** Run inclusion filter *)

Lemma is_root_true (h : LogStreamCallbackHandler) (run_id : string) :
  is_root h run_id = true <-> rootId h = Some run_id.
Proof.
  unfold is_root. destruct (rootId h) as [r|]; [|split; discriminate].
  split.
  - intros H. apply String.eqb_eq in H. by subst.
  - intros [= ->]. apply String.eqb_refl.
Qed.

Lemma is_root_false (h : LogStreamCallbackHandler) (run_id : string) :
  is_root h run_id = false <-> rootId h <> Some run_id.
Proof.
  rewrite <- is_root_true. destruct (is_root h run_id); split; congruence.
Qed.

Lemma configured_includes_true (set : option (list string)) (x : string) :
  configured_includes set x = true <-> exists l, set = Some l /\ x ∈ l.
Proof.
  destruct set as [l|]; simpl.
  - rewrite includes_elem_of. split; [intros H; by exists l|].
    by intros (l' & [= <-] & H).
  - split; [discriminate | by intros (l' & [=] & _)].
Qed.

(** What the include sets decide, before the exclude sets veto. *)
Definition include_decision (h : LogStreamCallbackHandler) (run : Run.t) : Prop :=
  (includeNames h = None /\ includeTypes h = None /\ includeTags h = None)
  \/ (exists names, includeNames h = Some names /\ Run.name run ∈ names)
  \/ (exists types, includeTypes h = Some types /\ Run.run_type run ∈ types)
  \/ (exists tags tag, includeTags h = Some tags
        /\ tag ∈ default [] (Run.tags run) /\ tag ∈ tags).

Definition no_exclude_veto (h : LogStreamCallbackHandler) (run : Run.t) : Prop :=
  (forall names, excludeNames h = Some names -> Run.name run ∉ names)
  /\ (forall types, excludeTypes h = Some types -> Run.run_type run ∉ types)
  /\ (forall tags tag, excludeTags h = Some tags ->
        tag ∈ default [] (Run.tags run) -> tag ∉ tags).

(** The filter as one boolean formula: the include decision and the three
    vetoes. *)
Definition include_decision_b (h : LogStreamCallbackHandler) (run : Run.t) : bool :=
  (negb (is_configured (includeNames h))
   && negb (is_configured (includeTags h))
   && negb (is_configured (includeTypes h)))
  || configured_includes (includeNames h) (Run.name run)
  || configured_includes (includeTypes h) (Run.run_type run)
  || match includeTags h with
     | Some tags =>
         is_configured (find (fun tag => includes tags tag)
                          (default [] (Run.tags run)))
     | None => false
     end.

Definition no_exclude_veto_b (h : LogStreamCallbackHandler) (run : Run.t) : bool :=
  negb (configured_includes (excludeNames h) (Run.name run))
  && negb (configured_includes (excludeTypes h) (Run.run_type run))
  && match excludeTags h with
     | Some tags =>
         forallb (fun tag => negb (includes tags tag)) (default [] (Run.tags run))
     | None => true
     end.

Lemma includeRun_formula (h : LogStreamCallbackHandler) (run : Run.t) :
  _includeRun h run
  = negb (is_root h (Run.id run))
    && include_decision_b h run && no_exclude_veto_b h run.
Proof.
  unfold _includeRun, include_decision_b, no_exclude_veto_b.
  destruct (is_root h (Run.id run)); [reflexivity|].
  destruct (includeNames h), (includeTypes h), (includeTags h),
    (excludeNames h), (excludeTypes h), (excludeTags h); simpl;
    repeat match goal with
      | |- context [includes ?l ?x] => destruct (includes l x)
      | |- context [is_configured ?o] => destruct (is_configured o)
      | |- context [forallb ?f ?l] => destruct (forallb f l)
      end; reflexivity.
Qed.

Lemma include_decision_b_true (h : LogStreamCallbackHandler) (run : Run.t) :
  include_decision_b h run = true <-> include_decision h run.
Proof.
  unfold include_decision_b, include_decision.
  rewrite !orb_true_iff, !andb_true_iff, !negb_true_iff,
    !configured_includes_true.
  assert (Htags :
    match includeTags h with
    | Some tags =>
        is_configured (find (fun tag => includes tags tag)
                         (default [] (Run.tags run)))
    | None => false
    end = true
    <-> exists tags tag, includeTags h = Some tags
          /\ tag ∈ default [] (Run.tags run) /\ tag ∈ tags).
  { destruct (includeTags h) as [tags|].
    - rewrite find_is_configured. split.
      + intros (tag & Hin & Hf). apply includes_elem_of in Hf. by exists tags, tag.
      + intros (tags' & tag & [= <-] & Hin & Hf). exists tag.
        by rewrite includes_elem_of.
    - split; [discriminate | by intros (? & ? & [=] & _)]. }
  rewrite Htags.
  assert (Hnone : forall A (o : option A), is_configured o = false <-> o = None).
  { intros A [a|]; simpl; split; congruence. }
  rewrite !Hnone. tauto.
Qed.

Lemma no_exclude_veto_b_true (h : LogStreamCallbackHandler) (run : Run.t) :
  no_exclude_veto_b h run = true <-> no_exclude_veto h run.
Proof.
  unfold no_exclude_veto_b, no_exclude_veto.
  rewrite !andb_true_iff, !negb_true_iff.
  assert (Hset : forall set x,
    configured_includes set x = false
    <-> forall l : list string, set = Some l -> x ∉ l).
  { intros [l|] x; simpl.
    - rewrite includes_not_elem_of. split; [by intros H l' [= <-]|].
      intros H. by apply H.
    - split; [by intros _ l [=] | done]. }
  rewrite !Hset.
  assert (Htags :
    match excludeTags h with
    | Some tags =>
        forallb (fun tag => negb (includes tags tag)) (default [] (Run.tags run))
    | None => true
    end = true
    <-> forall tags tag, excludeTags h = Some tags ->
          tag ∈ default [] (Run.tags run) -> tag ∉ tags).
  { destruct (excludeTags h) as [tags|].
    - rewrite forallb_forall. split.
      + intros H tags' tag [= <-] Hin. apply list_elem_of_In in Hin.
        specialize (H _ Hin). by apply negb_true_iff, includes_not_elem_of in H.
      + intros H tag Hin. apply negb_true_iff, includes_not_elem_of.
        apply (H tags tag eq_refl). by apply list_elem_of_In.
    - split; [by intros _ ? ? [=] | done]. }
  rewrite Htags. tauto.
Qed.

(** C3.  For a run that is not the root, [_includeRun] answers true exactly
    when no include set is configured or the run matches one of the
    configured include sets (by name, by type or by one of its tags), and
    no configured exclude set matches its name, its type or any of its
    tags. *)
Theorem includeRun_iff (h : LogStreamCallbackHandler) (run : Run.t) :
  rootId h <> Some (Run.id run) ->
  _includeRun h run = true <-> include_decision h run /\ no_exclude_veto h run.
Proof.
  intros Hroot. apply is_root_false in Hroot.
  rewrite includeRun_formula, Hroot. simpl.
  by rewrite andb_true_iff, include_decision_b_true, no_exclude_veto_b_true.
Qed.

Definition filtered_handler : LogStreamCallbackHandler :=
  set_rootId (Some "root")
    (new_LogStreamCallbackHandler
       (mkInput None None None (Some ["my_tag"]) (Some ["2"]) None None None)).

Definition tagged_run (run_id run_name : string) (run_tags : list string)
  : Run.t :=
  Run.mk run_id run_name "chain" (Some run_tags) None 0 None [] None.

Lemma includeRun_iff_witness :
  _includeRun filtered_handler (tagged_run "r3" "3" ["my_tag"]) = true
  <-> include_decision filtered_handler (tagged_run "r3" "3" ["my_tag"])
      /\ no_exclude_veto filtered_handler (tagged_run "r3" "3" ["my_tag"]).
Proof. apply includeRun_iff. vm_compute. discriminate. Defined.

(** Exclusion dominates: a run named in [excludeNames] is left out even when
    an include set selects it. *)
Corollary excluded_name_dominates (h : LogStreamCallbackHandler) (run : Run.t)
    (names : list string) :
  excludeNames h = Some names -> Run.name run ∈ names ->
  _includeRun h run = false.
Proof.
  intros Hx Hin. rewrite includeRun_formula. unfold no_exclude_veto_b.
  rewrite Hx. simpl. apply includes_elem_of in Hin. rewrite Hin. simpl.
  by rewrite !andb_false_r.
Qed.

(** ** Patch model: incremental application against full replay *)

Section PatchProperties.
Variable applyOperation' : value -> Operation -> result value.

Abbreviation applyPatch := (applyPatch applyOperation').
Abbreviation replay := (replay applyOperation').

(** The last of the results of [applyPatch] is the replayed document. *)
Lemma applyPatch_last (patch : list Operation) (document : value) :
  match applyPatch document patch with
  | Throw m => replay document patch = Throw m
  | Ok states =>
      length states = length patch
      /\ replay document patch
         = Ok (match last_state states with
               | Some s => newDocument s
               | None => document
               end)
  end.
Proof.
  revert document. induction patch as [|o rest IH]; intros document; simpl.
  - done.
  - destruct (applyOperation' document o) as [document'|m]; [|done].
    specialize (IH document').
    destruct (applyPatch document' rest) as [states|m]; [|done].
    destruct IH as [Hlen IH]. split; [simpl; by rewrite Hlen|].
    rewrite IH. unfold last_state. destruct states as [|s states]; [done|].
    rewrite (last_cons (mkResult document')).
    destruct (last (s :: states)) eqn:E; [done|].
    by apply last_None in E.
Qed.

Lemma applyPatch_nil_iff (patch : list Operation) (document : value) :
  applyPatch document patch = Ok [] <-> patch = [].
Proof.
  split; [|by intros ->].
  intros H. pose proof (applyPatch_last patch document) as Hl.
  rewrite H in Hl. destruct Hl as [Hlen _]. by destruct patch.
Qed.

Lemma replay_app (a b : list Operation) (document : value) :
  replay document (a ++ b)
  = match replay document a with
    | Ok document' => replay document' b
    | Throw m => Throw m
    end.
Proof.
  revert document. induction a as [|o a IH]; intros document; simpl; [done|].
  by destruct (applyOperation' document o).
Qed.

(** What [applyPatch] followed by [states[states.length - 1].newDocument]
    computes, in terms of [replay]. *)
Lemma last_newDocument_replay (patch : list Operation) (document : value) :
  patch <> [] ->
  match applyPatch document patch with
  | Throw m => Throw m
  | Ok states =>
      match last_state states with
      | None => Throw undefined_newDocument
      | Some s => Ok (newDocument s)
      end
  end = replay document patch.
Proof.
  intros Hne. pose proof (applyPatch_last patch document) as H.
  destruct (applyPatch document patch) as [states|m]; [|done].
  destruct H as [Hlen ->]. destruct states as [|s states].
  - by destruct patch.
  - unfold last_state. destruct (last (s :: states)) eqn:E; [done|].
    by apply last_None in E.
Qed.

(** For a patch with at least one operation, the incremental
    [RunLog.concat] and the full replay of [RunLogPatch.concat] have the
    same outcome: the same run log, or the same failure. *)
Lemma RunLog_concat_full_replay (L : RunLog) (P : RunLogPatch) :
  replay empty_document (log_ops L) = Ok (state L) ->
  ops P <> [] ->
  RunLog_concat applyOperation' L P
  = RunLogPatch_concat applyOperation' (RunLog_as_patch L) P.
Proof.
  intros Hinv Hne. unfold RunLog_concat, RunLogPatch_concat. simpl.
  assert (Hne' : log_ops L ++ ops P <> []).
  { intros H. apply app_eq_nil in H. tauto. }
  pose proof (last_newDocument_replay (ops P) (state L) Hne) as H1.
  pose proof (last_newDocument_replay (log_ops L ++ ops P) empty_document Hne')
    as H2.
  rewrite replay_app, Hinv in H2.
  destruct (applyPatch (state L) (ops P)) as [s1|m1],
    (applyPatch empty_document (log_ops L ++ ops P)) as [s2|m2];
    try destruct (last_state s1); try destruct (last_state s2);
    congruence.
Qed.

(** With an empty patch the two part: [RunLog.concat] indexes the empty
    array of results and throws, the full replay returns the log
    unchanged. *)
Lemma RunLog_concat_empty_patch (L : RunLog) :
  replay empty_document (log_ops L) = Ok (state L) ->
  log_ops L <> [] ->
  RunLog_concat applyOperation' L (mkRunLogPatch [])
  = Throw undefined_newDocument
  /\ RunLogPatch_concat applyOperation' (RunLog_as_patch L) (mkRunLogPatch [])
     = Ok (mkRunLog (log_ops L ++ []) (state L)).
Proof.
  intros Hinv Hne. split; [reflexivity|].
  unfold RunLogPatch_concat. simpl. rewrite app_nil_r.
  pose proof (last_newDocument_replay (log_ops L) empty_document Hne) as H.
  rewrite Hinv in H.
  destruct (applyPatch empty_document (log_ops L)) as [s|m]; [|done].
  destruct (last_state s); congruence.
Qed.
End PatchProperties.

Definition one_op_log : RunLog :=
  mkRunLog [mkOp OpReplace "" (VObj [("logs", VObj [])])]
    (VObj [("logs", VObj [])]).

(** C1, at the failing input.  The log [one_op_log] satisfies the invariant
    "state = its operations applied to the empty document"; concatenating
    the empty patch onto it throws in [RunLog.concat], while the full
    replay of the concatenated operations returns the log's state. *)
Theorem RunLog_concat_empty_patch_diverges :
  RunLog_fromRunLogPatch applyOperation (RunLog_as_patch one_op_log)
  = Ok one_op_log
  /\ RunLog_concat applyOperation one_op_log (mkRunLogPatch [])
     = Throw undefined_newDocument
  /\ RunLogPatch_concat applyOperation (RunLog_as_patch one_op_log)
       (mkRunLogPatch [])
     = Ok one_op_log.
Proof. vm_compute. done. Qed.

(** ** Reads and writes of the dictionaries *)

Lemma lookup_property_own {A} (of_text : string -> A) (obj : gmap string A)
    (key : string) (v : A) :
  obj !! key = Some v -> lookup_property of_text obj key = Some v.
Proof. unfold lookup_property. by intros ->. Qed.

Lemma lookup_property_not_inherited {A} (of_text : string -> A)
    (obj : gmap string A) (key : string) :
  inherited key = None -> lookup_property of_text obj key = obj !! key.
Proof. unfold lookup_property. intros ->. by destruct (obj !! key). Qed.

Lemma lookup_property_undefined {A} (of_text : string -> A)
    (obj : gmap string A) (key : string) :
  lookup_property of_text obj key = None <->
  obj !! key = None /\ inherited key = None.
Proof.
  unfold lookup_property.
  destruct (obj !! key), (inherited key); simpl; split; try done; by intros [? ?].
Qed.

Lemma not_inherited_not_proto (key : string) :
  inherited key = None -> key <> "__proto__".
Proof. by intros H ->. Qed.

Lemma assign_property_not_proto {A} (key : string) (v : A) (obj : gmap string A) :
  key <> "__proto__" -> assign_property key v obj = <[key := v]> obj.
Proof.
  unfold assign_property. intros H. apply String.eqb_neq in H. by rewrite H.
Qed.

Lemma assign_property_lookup_ne {A} (key key' : string) (v : A)
    (obj : gmap string A) :
  key <> key' -> assign_property key v obj !! key' = obj !! key'.
Proof.
  unfold assign_property. intros H.
  destruct (String.eqb key "__proto__"); [done|]. by rewrite lookup_insert_ne.
Qed.

(** ** The tracer *)

Section TracerProperties.
Variable toISOString : Z -> string.

Abbreviation onRunCreate' := (onRunCreate toISOString).
Abbreviation notify' := (notify toISOString).
Abbreviation deliver' := (deliver toISOString).

Ltac run_handler :=
  cbv [notify onRunCreate onRunUpdate onLLMNewToken tapOutputIterable_chunk
       register_root update_entry finish_root try_finally
       bind gets modify ret lift writer_write writer_close];
  simpl.

(** Whether [onRunCreate] gets past the inclusion filter for this run. *)
Definition creates_entry (run : Run.t) (h : LogStreamCallbackHandler) : bool :=
  match register_root run h with
  | (h1, Ok _) => _includeRun h1 run
  | (_, Throw _) => false
  end.

(** The counters once a run named [name] went through [assign_key], and
    the key it was given. *)
Definition counters_after (counters : gmap string counter) (name : string)
  : gmap string counter :=
  assign_property name
    (increment (default (CNum 0) (lookup_property CText counters name)))
    counters.

Definition key_after (counters : gmap string counter) (name : string) : string :=
  key_of_count name
    (default (CNum 0)
       (lookup_property CText (counters_after counters name) name)).

Lemma assign_key_maps (run : Run.t) (h : LogStreamCallbackHandler) :
  counterMapByRunName (assign_key run h)
  = counters_after (counterMapByRunName h) (Run.name run)
  /\ keyMapByRunId (assign_key run h)
     = assign_property (Run.id run)
         (key_after (counterMapByRunName h) (Run.name run)) (keyMapByRunId h).
Proof.
  assert (Hc : counterMapByRunName (assign_key run h)
               = counters_after (counterMapByRunName h) (Run.name run)).
  { unfold assign_key, counters_after. simpl.
    destruct (lookup_property CText (counterMapByRunName h) (Run.name run))
      as [c|] eqn:E; simpl.
    - by rewrite E.
    - apply lookup_property_undefined in E as [_ Hn].
      pose proof (not_inherited_not_proto _ Hn) as Hp.
      rewrite !assign_property_not_proto by done.
      rewrite lookup_property_not_inherited by done.
      rewrite lookup_insert_eq. simpl. by rewrite insert_insert_eq. }
  split; [exact Hc|]. unfold key_after. rewrite <- Hc. reflexivity.
Qed.

(** The key under which [onRunCreate] files the entry of an included run:
    what it reads back from [keyMapByRunId]. *)
Definition logged_key (run : Run.t) (h : LogStreamCallbackHandler) : string :=
  default "undefined"
    (lookup_property id (keyMapByRunId (assign_key run h)) (Run.id run)).

Lemma onRunCreate_unfold (run : Run.t) (h : LogStreamCallbackHandler) :
  onRunCreate' run h
  = match register_root run h with
    | (h1, Throw m) => (h1, Throw m)
    | (h1, Ok _) =>
        if _includeRun h1 run then
          match Date_toISOString toISOString (Run.start_time run) with
          | Throw m => (assign_key run h1, Throw m)
          | Ok _ =>
              match new_logEntry toISOString run (_schemaFormat h1) with
              | Throw m => (assign_key run h1, Throw m)
              | Ok logEntry =>
                  writer_write
                    (mkRunLogPatch
                       [mkOp OpAdd ("/logs/" +:+ logged_key run h1)
                          (VObj logEntry)])
                    (assign_key run h1)
              end
          end
        else (h1, Ok tt)
    end.
Proof.
  unfold onRunCreate, bind at 1.
  destruct (register_root run h) as [h1 [[]|m]]; [|reflexivity].
  cbv [bind gets modify ret lift].
  destruct (_includeRun h1 run); [|reflexivity]. cbv [negb].
  destruct (Date_toISOString toISOString (Run.start_time run)); [|reflexivity].
  replace (_schemaFormat (assign_key run h1)) with (_schemaFormat h1)
    by reflexivity.
  destruct (new_logEntry toISOString run (_schemaFormat h1)); reflexivity.
Qed.

Lemma register_root_maps (run : Run.t) (h : LogStreamCallbackHandler) :
  counterMapByRunName (fst (register_root run h)) = counterMapByRunName h
  /\ keyMapByRunId (fst (register_root run h)) = keyMapByRunId h.
Proof.
  cbv [register_root bind gets modify ret writer_write].
  destruct (rootId h); [done|]. simpl. by destruct (writer_closed h).
Qed.

Lemma writer_write_maps (patch : RunLogPatch) (h : LogStreamCallbackHandler) :
  counterMapByRunName (fst (writer_write patch h)) = counterMapByRunName h
  /\ keyMapByRunId (fst (writer_write patch h)) = keyMapByRunId h.
Proof. unfold writer_write. by destruct (writer_closed h). Qed.

(** Only a run creation that passes the filter touches the two maps. *)
Lemma notify_maps (n : Notification) (h : LogStreamCallbackHandler) :
  match n with
  | RunCreate run =>
      if creates_entry run h then
        counterMapByRunName (fst (notify' n h))
        = counters_after (counterMapByRunName h) (Run.name run)
        /\ keyMapByRunId (fst (notify' n h))
           = assign_property (Run.id run)
               (key_after (counterMapByRunName h) (Run.name run))
               (keyMapByRunId h)
      else
        counterMapByRunName (fst (notify' n h)) = counterMapByRunName h
        /\ keyMapByRunId (fst (notify' n h)) = keyMapByRunId h
  | _ =>
      counterMapByRunName (fst (notify' n h)) = counterMapByRunName h
      /\ keyMapByRunId (fst (notify' n h)) = keyMapByRunId h
  end.
Proof.
  destruct n as [run|run|run token chunk|runId chunk].
  - simpl. rewrite onRunCreate_unfold. unfold creates_entry.
    pose proof (register_root_maps run h) as [Hc Hk].
    destruct (register_root run h) as [h1 [[]|m]]; simpl in *; [|done].
    destruct (_includeRun h1 run); [|done].
    pose proof (assign_key_maps run h1) as [Hc' Hk'].
    rewrite Hc, Hk in *.
    destruct (Date_toISOString toISOString (Run.start_time run)); simpl; [|done].
    destruct (new_logEntry toISOString run (_schemaFormat h1)); simpl; [|done].
    match goal with
    | |- context [writer_write ?p ?h'] =>
        pose proof (writer_write_maps p h') as [-> ->]
    end.
    done.
  - run_handler. repeat case_match; simplify_eq; simpl; done.
  - run_handler. repeat case_match; simplify_eq; simpl; done.
  - run_handler. repeat case_match; simplify_eq; simpl; done.
Qed.

(** The names of the runs that passed the filter of [onRunCreate], in
    discovery order, while the notifications [ns] were delivered to [h]. *)
Fixpoint included_names (h : LogStreamCallbackHandler) (ns : list Notification)
  : list string :=
  match ns with
  | [] => []
  | n :: rest =>
      match n with
      | RunCreate run => if creates_entry run h then [Run.name run] else []
      | _ => []
      end ++ included_names (fst (notify' n h)) rest
  end.

(** How many of the names are [name]. *)
Definition occurrences (name : string) (names : list string) : nat :=
  length (filter (fun x => x = name) names).

Lemma deliver_cons (n : Notification) (ns : list Notification)
    (h : LogStreamCallbackHandler) :
  deliver' h (n :: ns) = deliver' (fst (notify' n h)) ns.
Proof. reflexivity. Qed.

Lemma deliver_app (ns ns' : list Notification) (h : LogStreamCallbackHandler) :
  deliver' h (ns ++ ns') = deliver' (deliver' h ns) ns'.
Proof. unfold deliver. apply fold_left_app. Qed.

(** The number a counter holds; 0 when there is none. *)
Definition count_of (counters : gmap string counter) (name : string) : nat :=
  match counters !! name with
  | Some (CNum n) => n
  | _ => 0%nat
  end.

(** The counter of [name], if any, holds a number. *)
Definition numeric_at (counters : gmap string counter) (name : string) : Prop :=
  forall s, counters !! name <> Some (CText s).

Lemma counters_after_same (counters : gmap string counter) (name : string) :
  inherited name = None -> numeric_at counters name ->
  counters_after counters name
  = <[name := CNum (S (count_of counters name))]> counters
  /\ key_after counters name = run_key name (S (count_of counters name)).
Proof.
  intros Hn Hnum. pose proof (not_inherited_not_proto _ Hn) as Hp.
  assert (Hc : counters_after counters name
               = <[name := CNum (S (count_of counters name))]> counters).
  { unfold counters_after, count_of.
    rewrite assign_property_not_proto, lookup_property_not_inherited by done.
    destruct (counters !! name) as [[k|s]|] eqn:E; simpl.
    - by rewrite Nat.add_1_r.
    - by destruct (Hnum s).
    - done. }
  split; [exact Hc|]. unfold key_after.
  rewrite Hc, lookup_property_not_inherited, lookup_insert_eq by done.
  reflexivity.
Qed.

Lemma counters_after_other (counters : gmap string counter) (name name' : string) :
  name' <> name -> counters_after counters name' !! name = counters !! name.
Proof. intros H. unfold counters_after. by apply assign_property_lookup_ne. Qed.

(** The counter of a name that [Object.prototype] does not have counts the
    runs of that name that passed the filter. *)
Lemma counter_counts (ns : list Notification) (h : LogStreamCallbackHandler)
    (name : string) :
  inherited name = None ->
  numeric_at (counterMapByRunName h) name ->
  numeric_at (counterMapByRunName (deliver' h ns)) name
  /\ count_of (counterMapByRunName (deliver' h ns)) name
     = (count_of (counterMapByRunName h) name
        + occurrences name (included_names h ns))%nat.
Proof.
  intros Hn. revert h. induction ns as [|n ns IH]; intros h Hnum.
  - simpl. unfold occurrences. simpl. split; [done | lia].
  - rewrite deliver_cons. simpl included_names.
    unfold occurrences. rewrite filter_app, length_app.
    fold (occurrences name (included_names (fst (notify' n h)) ns)).
    pose proof (notify_maps n h) as Hm.
    assert (Hstep :
      numeric_at (counterMapByRunName (fst (notify' n h))) name
      /\ count_of (counterMapByRunName (fst (notify' n h))) name
         = (count_of (counterMapByRunName h) name
            + length (filter (fun x => x = name)
                        match n with
                        | RunCreate run =>
                            if creates_entry run h then [Run.name run] else []
                        | _ => []
                        end))%nat).
    { destruct n as [run| | |];
        try (destruct Hm as [-> _]; simpl; split; [done | lia]).
      destruct (creates_entry run h); destruct Hm as [-> _];
        [|simpl; split; [done | lia]].
      destruct (decide (Run.name run = name)) as [->|Hne].
      - destruct (counters_after_same _ _ Hn Hnum) as [-> _].
        rewrite filter_cons_True by done. simpl.
        unfold numeric_at, count_of. rewrite !lookup_insert_eq.
        split; [done | lia].
      - rewrite filter_cons_False by done. simpl.
        unfold numeric_at, count_of in *.
        rewrite counters_after_other by done. split; [done | lia]. }
    destruct Hstep as [Hnum' Hcount'].
    destruct (IH _ Hnum') as [Hnum'' ->]. split; [done | lia].
Qed.

Lemma new_handler_counters (fields : LogStreamCallbackHandlerInput) (name : string) :
  counterMapByRunName (new_LogStreamCallbackHandler fields) !! name = None.
Proof. apply lookup_empty. Qed.

Lemma append_cons_ne (s : string) (c : Ascii.ascii) (t : string) :
  s <> s +:+ String c t.
Proof.
  intros H. assert (Hlen : String.length s = String.length (s +:+ String c t))
    by (by rewrite <- H).
  clear H. induction s as [|a s IH]; simpl in *; [discriminate|].
  apply IH. by injection Hlen.
Qed.

(** Distinct counts give distinct keys for one name. *)
Lemma run_key_inj (name : string) (n m : nat) :
  (1 <= n)%nat -> (1 <= m)%nat -> run_key name n = run_key name m -> n = m.
Proof.
  unfold run_key. intros Hn Hm.
  destruct (n =? 1)%nat eqn:En, (m =? 1)%nat eqn:Em.
  - apply Nat.eqb_eq in En, Em. congruence.
  - intros H. by apply append_cons_ne in H.
  - intros H. symmetry in H. by apply append_cons_ne in H.
  - intros H. apply String.app_inj in H. apply String.app_inj in H.
    by apply pretty_nat_inj in H.
Qed.

(** A notification that is not the creation of run [run_id] leaves the key
    of that run alone. *)
Definition creates (run_id : string) (n : Notification) : Prop :=
  match n with
  | RunCreate run => Run.id run = run_id
  | _ => False
  end.

Lemma key_stable (ns : list Notification) (h : LogStreamCallbackHandler)
    (run_id : string) :
  Forall (fun n => ~ creates run_id n) ns ->
  keyMapByRunId (deliver' h ns) !! run_id = keyMapByRunId h !! run_id.
Proof.
  revert h. induction ns as [|n ns IH]; intros h Hns; [done|].
  apply Forall_cons in Hns as [Hn Hns]. rewrite deliver_cons, IH by done.
  pose proof (notify_maps n h) as Hm.
  destruct n as [run| | |]; try (by destruct Hm as [_ ->]).
  destruct (creates_entry run h); destruct Hm as [_ ->]; [|done].
  by rewrite assign_property_lookup_ne.
Qed.

Lemma onRunCreate_maps (run : Run.t) (h : LogStreamCallbackHandler) :
  creates_entry run h = true ->
  counterMapByRunName (fst (onRunCreate' run h))
  = counters_after (counterMapByRunName h) (Run.name run)
  /\ keyMapByRunId (fst (onRunCreate' run h))
     = assign_property (Run.id run)
         (key_after (counterMapByRunName h) (Run.name run)) (keyMapByRunId h).
Proof.
  intros Hc. pose proof (notify_maps (RunCreate run) h) as H.
  simpl in H. by rewrite Hc in H.
Qed.
End TracerProperties.

(** A stand-in for the platform's date formatting in closed examples; what
    the examples check does not depend on it. *)
Definition epoch_string (t : Z) : string := pretty t.

Definition plain_run (run_id run_name : string) : Run.t :=
  Run.mk run_id run_name "chain" None None 0 None [] None.

Definition no_filter : LogStreamCallbackHandlerInput :=
  mkInput None None None None None None None None.

Definition colliding_names : list Notification :=
  [RunCreate (plain_run "root" "pipeline");
   RunCreate (plain_run "r1" "a");
   RunCreate (plain_run "r2" "a");
   RunCreate (plain_run "r3" "a:2")].

(** C5.  The code at the input where it parts from the claim: on a fresh
    tracer without filters, after the creation of a root and of three
    sub-runs named [a], [a] and [a:2], the second run named [a] and the
    first run named [a:2] are both recorded under the key [a:2], so a key
    that was assigned to one run is assigned again to a different run. *)
Lemma key_shared_by_two_runs :
  let h := deliver epoch_string (new_LogStreamCallbackHandler no_filter)
             colliding_names in
  keyMapByRunId h !! "r2" = Some "a:2"
  /\ keyMapByRunId h !! "r3" = Some "a:2"
  /\ ~ (forall id1 id2 key,
          keyMapByRunId h !! id1 = Some key ->
          keyMapByRunId h !! id2 = Some key -> id1 = id2).
Proof.
  intros h.
  assert (H2 : keyMapByRunId h !! "r2" = Some "a:2") by (vm_compute; reflexivity).
  assert (H3 : keyMapByRunId h !! "r3" = Some "a:2") by (vm_compute; reflexivity).
  split; [exact H2|]. split; [exact H3|].
  intros H. specialize (H "r2" "r3" "a:2" H2 H3). discriminate.
Qed.

(** The entry of the third run replaces that of the second on the channel:
    both additions are written at [/logs/a:2]. *)
Lemma colliding_entries_share_a_path :
  map (fun patch => map path (ops patch))
    (written (deliver epoch_string (new_LogStreamCallbackHandler no_filter)
                colliding_names))
  = [[""]; ["/logs/a"]; ["/logs/a:2"]; ["/logs/a:2"]].
Proof. vm_compute. reflexivity. Qed.

(** A run whose name is a member of [Object.prototype]: the read of its
    counter gives the inherited member, and the first run named
    [constructor] is recorded under a key made of the member's text, not
    under the bare name. *)
Lemma inherited_name_is_not_counted :
  keyMapByRunId
    (deliver epoch_string (new_LogStreamCallbackHandler no_filter)
       [RunCreate (plain_run "root" "pipeline");
        RunCreate (plain_run "r1" "constructor")])
  !! "r1"
  = Some "constructor:function Object() { [native code] }1".
Proof. vm_compute. reflexivity. Qed.

(** C9.  Under the standardized format, for a run of a general composition
    type whose raw input mapping has exactly one key and the empty string
    under key [input], [_getStandardizedInputs] returns undefined, and the
    [LogEntry] that [onRunCreate] builds reads undefined under [inputs]
    rather than the empty string. *)
Theorem empty_input_is_not_yet_known (run : Run.t) :
  Run.run_type run ∉ passthrough_run_types ->
  length (Object_keys (Run.inputs run)) = 1%nat ->
  get (Run.inputs run) "input" = VStr "" ->
  _getStandardizedInputs run streaming_events = Ok VUndef
  /\ forall toISOString,
       exists logEntry,
         new_logEntry toISOString run streaming_events = Ok logEntry
         /\ get logEntry "inputs" = VUndef.
Proof.
  intros Htype Hlen Hempty.
  assert (H : _getStandardizedInputs run streaming_events = Ok VUndef).
  { unfold _getStandardizedInputs. apply includes_not_elem_of in Htype.
    by rewrite Htype, Hlen, Hempty. }
  split; [done|]. intros toISOString. unfold new_logEntry. rewrite H.
  eexists. split; [reflexivity|]. reflexivity.
Qed.

Lemma empty_input_is_not_yet_known_witness :
  _getStandardizedInputs (chain_run [("input", VStr "")] None) streaming_events
  = Ok VUndef.
Proof.
  apply (empty_input_is_not_yet_known (chain_run [("input", VStr "")] None)).
  - vm_compute. intros Hin.
    by repeat (apply elem_of_cons in Hin as [Hin|Hin]; [discriminate|]);
      apply elem_of_nil in Hin.
  - reflexivity.
  - reflexivity.
Defined.

(** ** Marshalling: induction on values *)

Section ValueInduction.
Variable P : value -> Prop.
Hypothesis Hundef : P VUndef.
Hypothesis Hnull : P VNull.
Hypothesis Hbool : forall b, P (VBool b).
Hypothesis Hnum : forall n, P (VNum n).
Hypothesis Hstr : forall s, P (VStr s).
Hypothesis Hdate : forall iso, P (VDate iso).
Hypothesis Harr : forall items, Forall P items -> P (VArr items).
Hypothesis Hobj :
  forall fields, Forall (fun kv => P (snd kv)) fields -> P (VObj fields).
Hypothesis Hinst :
  forall c fields, Forall (fun kv => P (snd kv)) fields -> P (VInst c fields).

Fixpoint value_nested_ind (v : value) : P v :=
  match v with
  | VUndef => Hundef
  | VNull => Hnull
  | VBool b => Hbool b
  | VNum n => Hnum n
  | VStr s => Hstr s
  | VDate iso => Hdate iso
  | VArr items =>
      Harr items
        ((fix each (l : list value) : Forall P l :=
            match l with
            | [] => @List.Forall_nil _ P
            | x :: rest =>
                @List.Forall_cons _ P x rest (value_nested_ind x) (each rest)
            end) items)
  | VObj fields =>
      Hobj fields
        ((fix each (l : KVMap) : Forall (fun kv => P (snd kv)) l :=
            match l with
            | [] => @List.Forall_nil _ _
            | kv :: rest =>
                @List.Forall_cons _ (fun kv => P (snd kv)) kv rest
                  (value_nested_ind (snd kv)) (each rest)
            end) fields)
  | VInst c fields =>
      Hinst c fields
        ((fix each (l : KVMap) : Forall (fun kv => P (snd kv)) l :=
            match l with
            | [] => @List.Forall_nil _ _
            | kv :: rest =>
                @List.Forall_cons _ (fun kv => P (snd kv)) kv rest
                  (value_nested_ind (snd kv)) (each rest)
            end) fields)
  end.
End ValueInduction.

(** The two local loops of [revive], named. *)
Definition revive_items (RUN_KEY : string) (items : list value)
  : list (result value) :=
  map (revive RUN_KEY) items.

Definition revive_fields (RUN_KEY : string) (fields : KVMap)
  : list (string * result value) :=
  map (fun kv => (fst kv, revive RUN_KEY (snd kv))) fields.

Lemma revive_arr (RUN_KEY : string) (items : list value) :
  revive RUN_KEY (VArr items)
  = match collect_list (revive_items RUN_KEY items) with
    | Ok items' => Ok (VArr items')
    | Throw m => Throw m
    end.
Proof.
  simpl. unfold revive_items.
  replace ((fix each (l : list value) : list (result value) :=
              match l with
              | [] => []
              | x :: rest => revive RUN_KEY x :: each rest
              end) items) with (map (revive RUN_KEY) items); [done|].
  induction items as [|x rest IH]; simpl; [done|]. by rewrite IH.
Qed.

Lemma revive_fields_loop (RUN_KEY : string) (fields : KVMap) :
  (fix each (l : KVMap) : list (string * result value) :=
     match l with
     | [] => []
     | (k, v) :: rest => (k, revive RUN_KEY v) :: each rest
     end) fields = revive_fields RUN_KEY fields.
Proof.
  unfold revive_fields.
  induction fields as [|[k v] rest IH]; simpl; [done|]. by rewrite IH.
Qed.

Lemma revive_obj (RUN_KEY : string) (fields : KVMap) :
  revive RUN_KEY (VObj fields)
  = revive_object RUN_KEY fields (revive_fields RUN_KEY fields).
Proof. simpl. by rewrite revive_fields_loop. Qed.

Lemma revive_inst (RUN_KEY : string) (c : Class) (fields : KVMap) :
  revive RUN_KEY (VInst c fields)
  = revive_object RUN_KEY fields (revive_fields RUN_KEY fields).
Proof. simpl. by rewrite revive_fields_loop. Qed.

(** ** Marshalling: which mappings a signature captures *)

(** The signatures [revive] tests after the message signature. *)
Definition later_signature (keys : list string) (type : value) : bool :=
  (isSuperset keys ["text"; "generation_info"; "type"]
   && (is_string type "ChatGenerationChunk" || is_string type "ChatGeneration"
       || is_string type "GenerationChunk" || is_string type "Generation"))
  || (isSuperset keys ["tool"; "tool_input"; "log"; "type"]
      && is_string type "AgentAction")
  || (isSuperset keys ["return_values"; "log"; "type"]
      && is_string type "AgentFinish")
  || (isSuperset keys ["generations"; "run"; "type"]
      && is_string type "LLMResult")
  || isSuperset keys ["messages"]
  || isSuperset keys ["text"].

(** Some signature of [revive] captures a mapping with these keys and this
    [type]. *)
Definition matches_signature (keys : list string) (type : value) : bool :=
  isSuperset keys ["page_content"; "metadata"]
  || (isSuperset keys ["content"; "type"; "additional_kwargs"]
      && is_configured (message_class_of_type type))
  || later_signature keys type.

(** Wire-form values none of whose mappings is captured by a signature. *)
Fixpoint plain (v : value) : bool :=
  match v with
  | VArr items => forallb plain items
  | VObj fields =>
      negb (matches_signature (Object_keys fields) (get fields "type"))
      && forallb (fun kv => plain (snd kv)) fields
  | VInst _ _ => false
  | _ => true
  end.

(** Every property named [messages], at any depth, holds an array. *)
Fixpoint messages_are_arrays (v : value) : bool :=
  match v with
  | VArr items => forallb messages_are_arrays items
  | VObj fields | VInst _ fields =>
      match assoc "messages" fields with
      | Some (VArr _) | None => true
      | Some _ => false
      end
      && forallb (fun kv => messages_are_arrays (snd kv)) fields
  | _ => true
  end.

(** The revived fields of a mapping, when each field revives. *)
Definition fields_revived (RUN_KEY : string) (fields fields' : KVMap) : Prop :=
  Forall2 (fun kv kv' =>
             fst kv = fst kv' /\ revive RUN_KEY (snd kv) = Ok (snd kv'))
    fields fields'.

Section ReviveProperties.
Variable RUN_KEY : string.

Abbreviation revive' := (revive RUN_KEY).

Local Arguments isSuperset : simpl never.
Local Arguments is_string : simpl never.
Local Arguments message_class_of_type : simpl never.

Ltac split_tests :=
  repeat match goal with
    | |- context [if ?c then _ else _] =>
        let E := fresh "E" in
        destruct c eqn:E; rewrite ?E in *; simpl in *; try discriminate
    | |- context [match message_class_of_type ?t with _ => _ end] =>
        let E := fresh "E" in
        destruct (message_class_of_type t) eqn:E; rewrite ?E in *;
        simpl in *; try discriminate
    end.

Lemma revive_object_generic (obj : KVMap)
    (revived : list (string * result value)) :
  matches_signature (Object_keys obj) (get obj "type") = false ->
  revive_object RUN_KEY obj revived
  = match collect revived with
    | Ok fields => Ok (VObj fields)
    | Throw m => Throw m
    end.
Proof.
  unfold matches_signature, later_signature. intros H.
  repeat (apply orb_false_elim in H as [H ?]).
  unfold revive_object. cbv zeta. split_tests; reflexivity.
Qed.

(** On a value that no signature captures, [revive] rebuilds the value. *)
Lemma revive_plain (v : value) : plain v = true -> revive' v = Ok v.
Proof.
  induction v as [| | | | | |items IH|fields IH|c fields IH]
    using value_nested_ind; try done.
  - intros Hp. rewrite revive_arr. simpl in Hp.
    assert (H : collect_list (revive_items RUN_KEY items) = Ok items);
      [|by rewrite H].
    induction items as [|x rest IHrest]; [done|].
    simpl in Hp. apply andb_true_iff in Hp as [Hx Hrest].
    apply Forall_cons in IH as [IHx IH]. simpl.
    rewrite (IHx Hx). fold (revive_items RUN_KEY rest).
    by rewrite (IHrest IH Hrest).
  - intros Hp. simpl in Hp. apply andb_true_iff in Hp as [Hsig Hp].
    apply negb_true_iff in Hsig.
    rewrite revive_obj, revive_object_generic by done.
    assert (H : collect (revive_fields RUN_KEY fields) = Ok fields);
      [|by rewrite H].
    clear Hsig. induction fields as [|[k x] rest IHrest]; [done|].
    simpl in Hp. apply andb_true_iff in Hp as [Hx Hrest].
    apply Forall_cons in IH as [IHx IH]. simpl in *.
    rewrite (IHx Hx). fold (revive_fields RUN_KEY rest).
    by rewrite (IHrest IH Hrest).
Qed.

Lemma collect_all_ok {K A} (entries : list (K * result A)) :
  Forall (fun kr => exists v, snd kr = Ok v) entries ->
  exists fields,
    collect entries = Ok fields
    /\ Forall2 (fun kr kv => fst kr = fst kv /\ snd kr = Ok (snd kv))
         entries fields.
Proof.
  induction 1 as [|[k r] rest [v Hv] _ (fields & Hc & Hf)].
  - exists []. by split; [|constructor].
  - simpl in Hv. subst r. exists ((k, v) :: fields). simpl. rewrite Hc.
    split; [done|]. by constructor.
Qed.

Lemma collect_list_all_ok {A} (items : list (result A)) :
  Forall (fun r => exists v, r = Ok v) items ->
  exists vs, collect_list items = Ok vs.
Proof.
  induction 1 as [|r rest [v ->] _ (vs & Hc)]; [by exists []|].
  exists (v :: vs). simpl. by rewrite Hc.
Qed.

Lemma revived_field_ok (revived : list (string * result value)) (key : string) :
  Forall (fun kr => exists v, snd kr = Ok v) revived ->
  exists v, revived_field revived key = Ok v.
Proof.
  unfold revived_field. induction 1 as [|[k r] rest [v Hv] _ IH]; simpl.
  - by exists VUndef.
  - destruct (String.eqb k key); [by exists v | done].
Qed.

Lemma isSuperset_single (fields : KVMap) (key : string) :
  isSuperset (Object_keys fields) [key] = true <-> assoc key fields <> None.
Proof.
  unfold isSuperset, includes. simpl. rewrite andb_true_r.
  induction fields as [|[k v] rest IH]; simpl; [done|].
  rewrite (String.eqb_sym key k). destruct (String.eqb k key); [done|].
  simpl. apply IH.
Qed.

(** The object branch returns whenever the fields revive and [messages],
    if present, is an array. *)
Lemma revive_object_total (obj : KVMap)
    (revived : list (string * result value)) :
  Forall (fun kr => exists v, snd kr = Ok v) revived ->
  match assoc "messages" obj with
  | Some (VArr _) | None => true
  | Some _ => false
  end = true ->
  exists v, revive_object RUN_KEY obj revived = Ok v.
Proof.
  intros Hall Hmsg.
  destruct (collect_all_ok revived Hall) as (fields & Hc & _).
  destruct (revived_field_ok revived "message" Hall) as [m Hm].
  destruct (revived_field_ok revived "generations" Hall) as [g Hg].
  destruct (revived_field_ok revived "messages" Hall) as [ms Hms].
  unfold revive_object. cbv zeta. rewrite Hc, Hm, Hg, Hms.
  assert (Harr : isSuperset (Object_keys obj) ["messages"] = true ->
                 exists l, get obj "messages" = VArr l).
  { intros H. apply isSuperset_single in H. unfold get.
    destruct (assoc "messages" obj) as [[]|]; try done. by eexists. }
  destruct (isSuperset (Object_keys obj) ["messages"]) eqn:Ems.
  - destruct (Harr eq_refl) as [l ->]. split_tests; by eexists.
  - split_tests; by eexists.
Qed.

(** [revive] returns on every value whose [messages] are arrays. *)
Lemma revive_total (v : value) :
  messages_are_arrays v = true -> exists v', revive' v = Ok v'.
Proof.
  induction v as [| | | | | |items IH|fields IH|c fields IH]
    using value_nested_ind; try (by eexists).
  - intros Hm. rewrite revive_arr. simpl in Hm.
    destruct (collect_list_all_ok (revive_items RUN_KEY items)) as [vs ->];
      [|by eexists].
    unfold revive_items. apply Forall_fmap. apply Forall_forall.
    intros x Hx. rewrite Forall_forall in IH. apply (IH x Hx).
    rewrite forallb_forall in Hm. apply Hm. by apply list_elem_of_In.
  - intros Hm. rewrite revive_obj. simpl in Hm.
    apply andb_true_iff in Hm as [Hmsg Hm].
    apply revive_object_total; [|done].
    unfold revive_fields. apply Forall_fmap. apply Forall_forall.
    intros kv Hkv. simpl. rewrite Forall_forall in IH. apply (IH kv Hkv).
    rewrite forallb_forall in Hm. apply (Hm kv). by apply list_elem_of_In.
  - intros Hm. rewrite revive_inst. simpl in Hm.
    apply andb_true_iff in Hm as [Hmsg Hm].
    apply revive_object_total; [|done].
    unfold revive_fields. apply Forall_fmap. apply Forall_forall.
    intros kv Hkv. simpl. rewrite Forall_forall in IH. apply (IH kv Hkv).
    rewrite forallb_forall in Hm. apply (Hm kv). by apply list_elem_of_In.
Qed.

(** C7, as amended.  [revive] returns unchanged every wire-form value none
    of whose mappings is captured by a signature, so that reviving such a
    value twice is the same as reviving it once; and it returns a Date and
    null unchanged. *)
Theorem revive_fixes_plain_values (v : value) :
  (plain v = true ->
   revive' v = Ok v /\ forall v', revive' v = Ok v' -> revive' v' = Ok v')
  /\ (forall iso, revive' (VDate iso) = Ok (VDate iso))
  /\ revive' VNull = Ok VNull.
Proof.
  split; [|done]. intros Hp. pose proof (revive_plain v Hp) as H.
  split; [done|]. intros v' Hv'. rewrite H in Hv'. by injection Hv' as <-.
Qed.

End ReviveProperties.

(** Modelled from the spec: the constant [RUN_KEY] of [outputs.ts] (not
    under src/), the key under which an LLM result carries its run. *)
Definition RUN_KEY_core : string := "__run".

Lemma revive_fixes_plain_values_witness :
  revive RUN_KEY_core
    (VObj [("when", VDate "2024-01-01T00:00:00.000Z");
           ("scores", VArr [VNum 1; VNull])])
  = Ok (VObj [("when", VDate "2024-01-01T00:00:00.000Z");
              ("scores", VArr [VNum 1; VNull])]).
Proof.
  destruct (revive_fixes_plain_values RUN_KEY_core
              (VObj [("when", VDate "2024-01-01T00:00:00.000Z");
                     ("scores", VArr [VNum 1; VNull])])) as [H _].
  destruct H as [H _]; [vm_compute; reflexivity | exact H].
Defined.

(** A generation in wire form: reviving it gives a plain [text] /
    [generationInfo] mapping, and reviving that mapping again gives a
    string prompt value. *)
Lemma revive_twice_differs :
  let v := VObj [("text", VStr "hi"); ("generation_info", VNull);
                 ("type", VStr "Generation")] in
  let once := VObj [("text", VStr "hi"); ("generationInfo", VNull)] in
  let twice := VInst StringPromptValue [("value", VStr "hi")] in
  revive RUN_KEY_core v = Ok once
  /\ revive RUN_KEY_core once = Ok twice
  /\ ~ (forall v1 v2, revive RUN_KEY_core v = Ok v1 ->
          revive RUN_KEY_core v1 = Ok v2 -> v2 = v1).
Proof.
  intros v once twice.
  assert (H1 : revive RUN_KEY_core v = Ok once) by (vm_compute; reflexivity).
  assert (H2 : revive RUN_KEY_core once = Ok twice) by (vm_compute; reflexivity).
  split; [done|]. split; [done|].
  intros H. specialize (H once twice H1 H2). discriminate.
Qed.




(** ** Marshalling: messages through [serialize] and [revive] *)

Definition FunctionMessage_isInstance (c : Class) : bool :=
  match c with
  | FunctionMessage | FunctionMessageChunk => true
  | _ => false
  end.

Section RoundTrip.
Variable _getType : Class -> string.
Variable RUN_KEY : string.

(** C6, as amended.  For every message [x] whose discriminant [_getType()]
    is one that [revive] recognises, [revive(serialize(x))] is a message of
    the class that discriminant selects, with the content of [x]; the role
    of a chat message, the tool call id of a tool message and the name of a
    message revived as a function message are those of [x].  The additional
    kwargs, and the name of any other message, are not handed to the
    constructor. *)
Theorem revive_serialize_message (c c' : Class) (fields : KVMap) :
  isBaseMessage (VInst c fields) = true ->
  message_class_of_type (VStr (_getType c)) = Some c' ->
  exists fields',
    revive RUN_KEY (serialize _getType (VInst c fields)) = Ok (VInst c' fields')
    /\ get fields' "content" = get fields "content"
    /\ (ChatMessage_isInstance c = true -> ChatMessage_isInstance c' = true ->
        get fields' "role" = get fields "role")
    /\ (ToolMessage_isInstance c = true -> ToolMessage_isInstance c' = true ->
        get fields' "tool_call_id" = get fields "tool_call_id")
    /\ (FunctionMessage_isInstance c' = true ->
        get fields' "name" = get fields "name")
    /\ (FunctionMessage_isInstance c' = false -> get fields' "name" = VUndef)
    /\ get fields' "additional_kwargs" = VUndef.
Proof.
  intros Hmsg Hc'.
  exists (message_fields c' (serializedMessage _getType c fields)).
  assert (Hser : serialize _getType (VInst c fields)
                 = VObj (serializedMessage _getType c fields)).
  { simpl. simpl in Hmsg. by rewrite Hmsg. }
  rewrite Hser, revive_obj. clear Hser.
  assert (Hkeys :
    isSuperset (Object_keys (serializedMessage _getType c fields))
      ["page_content"; "metadata"] = false
    /\ isSuperset (Object_keys (serializedMessage _getType c fields))
         ["content"; "type"; "additional_kwargs"] = true
    /\ get (serializedMessage _getType c fields) "type" = VStr (_getType c)).
  { unfold serializedMessage.
    destruct (ToolMessage_isInstance c), (ChatMessage_isInstance c); done. }
  destruct Hkeys as (Hdoc & Hsig & Htype).
  split.
  { unfold revive_object. cbv zeta. by rewrite Hdoc, Hsig, Htype, Hc'. }
  clear Hdoc Hsig Htype Hc'.
  unfold serializedMessage.
  destruct c; try discriminate Hmsg; destruct c'; simpl;
    repeat split; try done; discriminate.
Qed.
End RoundTrip.

(** Modelled from the spec: the discriminants [_getType()] of the message
    classes of [messages/index.ts] (not under src/): the [type] field that
    selects the message subtype; a chunk has the discriminant of its
    message class. *)
Definition _getType_core (c : Class) : string :=
  match c with
  | HumanMessage | HumanMessageChunk => "human"
  | AIMessage | AIMessageChunk => "ai"
  | SystemMessage | SystemMessageChunk => "system"
  | FunctionMessage | FunctionMessageChunk => "function"
  | ToolMessage | ToolMessageChunk => "tool"
  | ChatMessage | ChatMessageChunk => "generic"
  | _ => ""
  end.

Definition greeting : value :=
  VInst HumanMessage
    [("content", VStr "hi");
     ("additional_kwargs", VObj [("lang", VStr "en")]);
     ("name", VStr "ann")].

Lemma revive_serialize_message_witness :
  exists fields',
    revive RUN_KEY_core (serialize _getType_core greeting)
    = Ok (VInst HumanMessage fields')
    /\ get fields' "content" = VStr "hi".
Proof.
  destruct (revive_serialize_message _getType_core RUN_KEY_core
              HumanMessage HumanMessage
              [("content", VStr "hi");
               ("additional_kwargs", VObj [("lang", VStr "en")]);
               ("name", VStr "ann")] eq_refl eq_refl)
    as (fields' & Hr & Hc & _).
  exists fields'. split; [exact Hr | exact Hc].
Defined.

(** A human message with additional kwargs and a name: after
    [serialize] and [revive] it is a human message with the same content,
    but its additional kwargs and its name are gone. *)
Lemma round_trip_drops_additional_kwargs :
  serialize _getType_core greeting
  = VObj [("content", VStr "hi"); ("type", VStr "human");
          ("additional_kwargs", VObj [("lang", VStr "en")]);
          ("name", VStr "ann"); ("example", VBool false)]
  /\ revive RUN_KEY_core (serialize _getType_core greeting)
     = Ok (VInst HumanMessage [("content", VStr "hi")])
  /\ ~ (forall y, revive RUN_KEY_core (serialize _getType_core greeting) = Ok y ->
          prop y "additional_kwargs" = prop greeting "additional_kwargs"
          /\ prop y "name" = prop greeting "name").
Proof.
  assert (H : revive RUN_KEY_core (serialize _getType_core greeting)
              = Ok (VInst HumanMessage [("content", VStr "hi")]))
    by (vm_compute; reflexivity).
  split; [vm_compute; reflexivity|]. split; [exact H|].
  intros Hall. destruct (Hall _ H) as [Hk _]. vm_compute in Hk. discriminate.
Qed.

(** The other typed values are serialized field by field, as plain
    mappings; a revived document or generation chunk does not come back as
    one. *)
Lemma round_trip_of_other_instances :
  let document := new Document [("pageContent", VStr "p"); ("metadata", VObj [])] in
  let chunk :=
    new GenerationChunk [("text", VStr "t"); ("generationInfo", VNull)] in
  revive RUN_KEY_core (serialize _getType_core document)
  = Ok (VObj [("pageContent", VStr "p"); ("metadata", VObj [])])
  /\ revive RUN_KEY_core (serialize _getType_core chunk)
     = Ok (VInst StringPromptValue [("value", VStr "t")]).
Proof. vm_compute. done. Qed.

(** ** Remote batch calls *)

Section BatchProperties.
Variable _getType : Class -> string.
Variable RUN_KEY : string.
Variable respond : Request -> result value.
Variable _separateRunnableConfigFromCallOptions : value -> KVMap * value.
Variable _batchWithConfig :
  (list value -> option (list value) -> option RunnableBatchOptions ->
   Http value) ->
  list value -> value -> option RunnableBatchOptions -> Http value.
Variable url : string.

(** C8.  With [batchOptions.returnExceptions] set to true, [batch] and
    [_batch] throw, whatever the inputs and options, and the list of HTTP
    requests issued is what it was before the call. *)
Theorem returnExceptions_fails_before_any_request
    (inputs : list value) (options : value) (options' : option (list value))
    (batchOptions : RunnableBatchOptions) (issued : list Request) :
  returnExceptions batchOptions = Some true ->
  batch _getType RUN_KEY respond _separateRunnableConfigFromCallOptions
    _batchWithConfig url inputs options (Some batchOptions) issued
  = (issued, Throw returnExceptions_unsupported)
  /\ _batch _getType RUN_KEY respond _separateRunnableConfigFromCallOptions
       url inputs options' (Some batchOptions) issued
     = (issued, Throw returnExceptions_unsupported).
Proof.
  intros Hflag. unfold batch, _batch, asks_returnExceptions.
  by rewrite Hflag.
Qed.

(** Without the flag, [_batch] issues exactly one request, to [/batch]. *)
Lemma _batch_issues_one_request (inputs : list value)
    (options' : option (list value)) (batchOptions : option RunnableBatchOptions)
    (issued : list Request) :
  asks_returnExceptions batchOptions = false ->
  exists body,
    fst (_batch _getType RUN_KEY respond _separateRunnableConfigFromCallOptions
           url inputs options' batchOptions issued)
    = issued ++ [mkRequest "POST" (url +:+ "/batch") body].
Proof.
  intros Hflag. unfold _batch, post. rewrite Hflag.
  eexists. destruct (respond _); [|reflexivity].
  destruct (falsy _); reflexivity.
Qed.
End BatchProperties.

Lemma returnExceptions_fails_before_any_request_witness :
  batch _getType_core RUN_KEY_core (fun _ => Ok VNull) (fun v => ([], v))
    (fun f inputs _ batchOptions => f inputs None batchOptions)
    "http://localhost:8000" [VStr "a"; VStr "b"] VUndef
    (Some (mkBatchOptions None (Some true))) []
  = ([], Throw returnExceptions_unsupported).
Proof.
  apply (returnExceptions_fails_before_any_request _getType_core RUN_KEY_core
           (fun _ => Ok VNull) (fun v => ([], v))
           (fun f inputs _ batchOptions => f inputs None batchOptions)
           "http://localhost:8000" [VStr "a"; VStr "b"] VUndef None
           (mkBatchOptions None (Some true)) []).
  reflexivity.
Defined.

(** ** Entries of the materialized document *)

(** The values held directly by a container. *)
Definition members (document : value) : list value :=
  match document with
  | VObj fields | VInst _ fields => map snd fields
  | VArr items => items
  | _ => []
  end.

Definition is_container (document : value) : Prop :=
  match document with
  | VObj _ | VInst _ _ | VArr _ => True
  | _ => False
  end.

(** No entry held under [logs] carries the id [r]. *)
Definition no_root_entry (r : string) (document : value) : Prop :=
  forall logs entry,
    child_at "logs" document = Some logs ->
    entry ∈ members logs -> prop entry "id" <> VStr r.

(** The operations that cannot put the id [r] on an entry of [logs]: the
    initial replacement of the whole document, operations on another
    property of the root, and additions or replacements below [/logs/key]
    that do not write [r] as an entry's id. *)
Definition safe_op (r : string) (o : Operation) : Prop :=
  match pointer_segments (path o) with
  | Some [] => no_root_entry r (op_value o)
  | Some [f] => f <> "logs"
  | Some (l :: k :: rest) =>
      l = "logs" /\ op o <> OpRemove
      /\ (rest = [] -> prop (op_value o) "id" <> VStr r)
      /\ (rest = ["id"] -> op_value o <> VStr r)
  | None => True
  end.

Lemma assoc_set_field (key key' : string) (v : value) (fields : KVMap) :
  assoc key' (set_field key v fields)
  = if String.eqb key key' then Some v else assoc key' fields.
Proof.
  induction fields as [|[k w] rest IH]; simpl.
  - by destruct (String.eqb key key').
  - destruct (String.eqb k key) eqn:E; simpl.
    + apply String.eqb_eq in E. subst k. by destruct (String.eqb key key').
    + rewrite IH. destruct (String.eqb k key') eqn:E'; [|done].
      apply String.eqb_eq in E'. subst k. by rewrite String.eqb_sym, E.
Qed.

Lemma assoc_remove_field_ne (key key' : string) (fields : KVMap) :
  key <> key' -> assoc key' (remove_field key fields) = assoc key' fields.
Proof.
  intros Hne. induction fields as [|[k w] rest IH]; simpl; [done|].
  destruct (String.eqb k key) eqn:E; simpl.
  - apply String.eqb_eq in E. subst k.
    by apply String.eqb_neq in Hne as ->.
  - by rewrite IH.
Qed.

Lemma members_set_field (key : string) (v e : value) (fields : KVMap) :
  e ∈ map snd (set_field key v fields) -> e = v \/ e ∈ map snd fields.
Proof.
  induction fields as [|[k w] rest IH]; simpl.
  - intros H. apply elem_of_cons in H as [->|H]; [by left | by right].
  - destruct (String.eqb k key); simpl; intros H;
      apply elem_of_cons in H as [->|H].
    + by left.
    + right. by right.
    + right. by left.
    + destruct (IH H) as [->|H']; [by left | right; by right].
Qed.

Lemma members_remove_field (key : string) (e : value) (fields : KVMap) :
  e ∈ map snd (remove_field key fields) -> e ∈ map snd fields.
Proof.
  induction fields as [|[k w] rest IH]; simpl; [done|].
  destruct (String.eqb k key); simpl; intros H.
  - by right.
  - apply elem_of_cons in H as [->|H]; [by left | right; auto].
Qed.

Lemma child_at_members (key : string) (document child : value) :
  child_at key document = Some child -> child ∈ members document.
Proof.
  destruct document as [| | | | | |items|fields|c fields]; simpl; try done.
  - destruct (parse_index key); [|done]. apply list_elem_of_lookup_2.
  - induction fields as [|[k w] rest IH]; simpl; [done|].
    destruct (String.eqb k key); [intros [= ->]; by left | right; auto].
  - induction fields as [|[k w] rest IH]; simpl; [done|].
    destruct (String.eqb k key); [intros [= ->]; by left | right; auto].
Qed.

Lemma elem_of_list_insert_inv (i : nat) (v e : value) (items : list value) :
  e ∈ <[i:=v]> items -> e = v \/ e ∈ items.
Proof.
  intros H. apply list_elem_of_lookup in H as [j Hj].
  destruct (decide (i = j)) as [->|Hne].
  - destruct (decide (j < length items)%nat).
    + rewrite list_lookup_insert_eq in Hj by done. left. congruence.
    + rewrite list_insert_ge in Hj by lia. right.
      by apply list_elem_of_lookup_2 in Hj.
  - rewrite list_lookup_insert_ne in Hj by done. right.
    by apply list_elem_of_lookup_2 in Hj.
Qed.

Lemma members_with_child (key : string) (child e : value) (document : value) :
  e ∈ members (with_child key child document) ->
  e = child \/ e ∈ members document.
Proof.
  destruct document as [| | | | | |items|fields|c fields]; simpl;
    try (by right).
  - destruct (parse_index key) as [i|]; simpl; [|by right].
    apply elem_of_list_insert_inv.
  - apply members_set_field.
  - apply members_set_field.
Qed.

Lemma child_at_with_child (key : string) (child old : value) (document : value) :
  child_at key document = Some old ->
  child_at key (with_child key child document) = Some child.
Proof.
  destruct document as [| | | | | |items|fields|c fields]; simpl; try done.
  - destruct (parse_index key) as [i|] eqn:E; [|done]. simpl. rewrite E.
    intros H. apply list_lookup_insert_eq. by apply lookup_lt_Some in H.
  - intros _. by rewrite assoc_set_field, String.eqb_refl.
  - intros _. by rewrite assoc_set_field, String.eqb_refl.
Qed.

Lemma members_apply_in_object (kind : OpKind) (v : value) (key : string)
    (fields fields' : KVMap) (e : value) :
  apply_in_object kind v key fields = Ok fields' ->
  e ∈ map snd fields' -> e = v \/ e ∈ map snd fields.
Proof.
  unfold apply_in_object. destruct kind.
  - intros [= <-]. apply members_set_field.
  - destruct (has_field key fields); [|done].
    intros [= <-]. apply members_set_field.
  - destruct (has_field key fields); [|done].
    intros [= <-] H. right. by apply members_remove_field in H.
Qed.

Lemma members_apply_in_array (kind : OpKind) (v : value) (key : string)
    (items items' : list value) (e : value) :
  apply_in_array kind v key items = Ok items' ->
  e ∈ items' -> e = v \/ e ∈ items.
Proof.
  unfold apply_in_array. destruct kind.
  - destruct (String.eqb key "-").
    + intros [= <-] H. apply elem_of_app in H as [H|H]; [by right|].
      left. by apply list_elem_of_singleton in H.
    + destruct (parse_index key) as [i|]; [|done].
      destruct (i <=? length items)%nat; [|done].
      intros [= <-] H. apply elem_of_app in H as [H|H].
      * right. eapply elem_of_sublist; [done | apply sublist_take].
      * apply elem_of_cons in H as [->|H]; [by left|]. right.
        eapply elem_of_sublist; [done | apply sublist_drop].
  - destruct (parse_index key) as [i|]; [|done].
    destruct (i <? length items)%nat; [|done].
    intros [= <-]. apply elem_of_list_insert_inv.
  - destruct (parse_index key) as [i|]; [|done].
    destruct (i <? length items)%nat; [|done].
    intros [= <-] H. right. by apply list_elem_of_delete_inv in H.
Qed.

(** What a container holds after an operation at its last segment was
    already there, or is the value of the operation. *)
Lemma members_apply_leaf (kind : OpKind) (v : value) (key : string)
    (document document' e : value) :
  apply_leaf kind v key document = Ok document' ->
  e ∈ members document' -> e = v \/ e ∈ members document.
Proof.
  unfold apply_leaf.
  destruct document as [| | | | | |items|fields|c fields]; try done.
  - destruct (apply_in_array kind v key items) as [items'|] eqn:E; [|done].
    intros [= <-]. by apply members_apply_in_array with kind key.
  - destruct (apply_in_object kind v key fields) as [fields'|] eqn:E; [|done].
    intros [= <-]. by apply members_apply_in_object with kind key.
  - destruct (apply_in_object kind v key fields) as [fields'|] eqn:E; [|done].
    intros [= <-]. by apply members_apply_in_object with kind key.
Qed.

Lemma apply_leaf_container (kind : OpKind) (v : value) (key : string)
    (document document' : value) :
  apply_leaf kind v key document = Ok document' -> is_container document'.
Proof.
  unfold apply_leaf.
  destruct document; try done; repeat case_match; intros [= <-]; done.
Qed.

(** An operation below a document leaves a container in its place. *)
Lemma apply_at_container (kind : OpKind) (v : value) (key : string)
    (rest : list string) (document document' : value) :
  apply_at kind v (key :: rest) document = Ok document' ->
  is_container document'.
Proof.
  simpl. destruct rest as [|g rest'].
  - apply apply_leaf_container.
  - destruct (child_at key document) as [child|] eqn:Ec; [|done].
    destruct (apply_at kind v (g :: rest') child); [|done].
    intros [= <-]. destruct document; try done.
    simpl. by destruct (parse_index key).
Qed.

Lemma container_not_string (document : value) (s : string) :
  is_container document -> document <> VStr s.
Proof. by destruct document. Qed.

Lemma prop_with_child (key : string) (child document : value) :
  prop (with_child key child document) "id"
  = match document with
    | VObj _ | VInst _ _ =>
        if String.eqb key "id" then child else prop document "id"
    | _ => prop document "id"
    end.
Proof.
  destruct document as [| | | | | |items|fields|c fields]; simpl; try done.
  - by destruct (parse_index key).
  - unfold get. rewrite assoc_set_field. by destruct (String.eqb key "id").
  - unfold get. rewrite assoc_set_field. by destruct (String.eqb key "id").
Qed.

(** An addition or replacement inside an entry does not give it the id [r],
    unless it writes [r] as the id itself. *)
Lemma entry_id_preserved (r : string) (kind : OpKind) (v : value)
    (f : string) (rest : list string) (entry entry' : value) :
  kind <> OpRemove ->
  apply_at kind v (f :: rest) entry = Ok entry' ->
  prop entry "id" <> VStr r ->
  (rest = [] -> f = "id" -> v <> VStr r) ->
  prop entry' "id" <> VStr r.
Proof.
  intros Hkind Happly Hid Hv. simpl in Happly.
  destruct rest as [|g rest'].
  - unfold apply_leaf in Happly.
    destruct entry as [| | | | | |items|fields|c fields]; try done.
    + destruct (apply_in_array kind v f items); [|done].
      by injection Happly as <-.
    + unfold apply_in_object in Happly.
      assert (Hset : entry' = VObj (set_field f v fields)).
      { destruct kind; [| |done]; repeat case_match; congruence. }
      subst entry'. simpl in *. unfold get in *. rewrite assoc_set_field.
      destruct (String.eqb f "id") eqn:E; [|done].
      apply String.eqb_eq in E. by apply Hv.
    + unfold apply_in_object in Happly.
      assert (Hset : entry' = VInst c (set_field f v fields)).
      { destruct kind; [| |done]; repeat case_match; congruence. }
      subst entry'. simpl in *. unfold get in *. rewrite assoc_set_field.
      destruct (String.eqb f "id") eqn:E; [|done].
      apply String.eqb_eq in E. by apply Hv.
  - destruct (child_at f entry) as [child|] eqn:Ec; [|done].
    destruct (apply_at kind v (g :: rest') child) as [child'|] eqn:Ea; [|done].
    injection Happly as <-. rewrite prop_with_child.
    apply apply_at_container in Ea.
    destruct entry; try done;
      (destruct (String.eqb f "id"); [by apply container_not_string | done]).
Qed.

(** The entries of [logs] after an operation below it. *)
Lemma logs_entries_preserved (r : string) (kind : OpKind) (v : value)
    (key : string) (rest : list string) (logs logs' : value) :
  kind <> OpRemove ->
  apply_at kind v (key :: rest) logs = Ok logs' ->
  (forall e, e ∈ members logs -> prop e "id" <> VStr r) ->
  (rest = [] -> prop v "id" <> VStr r) ->
  (rest = ["id"] -> v <> VStr r) ->
  forall e, e ∈ members logs' -> prop e "id" <> VStr r.
Proof.
  intros Hkind Happly Hlogs Hentry Hid e He.
  destruct rest as [|f rest'].
  - simpl in Happly.
    destruct (members_apply_leaf _ _ _ _ _ _ Happly He) as [->|Hold];
      [by apply Hentry | by apply Hlogs].
  - change (apply_at kind v (key :: f :: rest') logs)
      with (match child_at key logs with
            | None => Throw invalid_operation
            | Some child =>
                match apply_at kind v (f :: rest') child with
                | Throw m => Throw m
                | Ok child' => Ok (with_child key child' logs)
                end
            end) in Happly.
    destruct (child_at key logs) as [child|] eqn:Ec; [|done].
    destruct (apply_at kind v (f :: rest') child) as [child'|] eqn:Ea; [|done].
    injection Happly as <-.
    apply members_with_child in He as [->|Hold]; [|by apply Hlogs].
    eapply entry_id_preserved; [done | exact Ea | |].
    + apply Hlogs. by eapply child_at_members.
    + intros -> ->. by apply Hid.
Qed.

(** A safe operation keeps the id [r] off the entries of [logs]. *)
Lemma applyOperation_no_root_entry (r : string) (o : Operation)
    (document document' : value) :
  safe_op r o -> no_root_entry r document ->
  applyOperation document o = Ok document' ->
  no_root_entry r document'.
Proof.
  unfold safe_op, applyOperation.
  destruct (pointer_segments (path o)) as [[|l [|k rest]]|]; [| | |done].
  - intros Hv _. simpl. destruct (op o); intros [= <-]; done.
  - intros Hl Hdoc Happly logs entry Hlogs. simpl in Happly.
    apply (Hdoc logs entry).
    rewrite <- Hlogs. clear Hlogs. unfold apply_leaf in Happly.
    destruct document as [| | | | | |items|fields|c fields]; try done.
    + destruct (apply_in_array (op o) (op_value o) l items); [|done].
      by injection Happly as <-.
    + unfold apply_in_object in Happly.
      destruct (op o); repeat case_match; simplify_eq; simpl;
        rewrite ?assoc_set_field, ?assoc_remove_field_ne by done;
        try done; by apply String.eqb_neq in Hl as ->.
    + unfold apply_in_object in Happly.
      destruct (op o); repeat case_match; simplify_eq; simpl;
        rewrite ?assoc_set_field, ?assoc_remove_field_ne by done;
        try done; by apply String.eqb_neq in Hl as ->.
  - intros (-> & Hkind & Hentry & Hid) Hdoc Happly.
    change (apply_at (op o) (op_value o) ("logs" :: k :: rest) document)
      with (match child_at "logs" document with
            | None => Throw invalid_operation
            | Some child =>
                match apply_at (op o) (op_value o) (k :: rest) child with
                | Throw m => Throw m
                | Ok child' => Ok (with_child "logs" child' document)
                end
            end) in Happly.
    destruct (child_at "logs" document) as [logs|] eqn:Ec; [|done].
    destruct (apply_at (op o) (op_value o) (k :: rest) logs) as [logs'|] eqn:Ea;
      [|done].
    injection Happly as <-. intros logs'' entry Hlogs''.
    rewrite (child_at_with_child _ _ _ _ Ec) in Hlogs''.
    injection Hlogs'' as <-.
    eapply logs_entries_preserved; [done | exact Ea | | done | done].
    intros e He. by apply (Hdoc logs e).
Qed.

Lemma replay_no_root_entry (r : string) (patch : list Operation)
    (document document' : value) :
  Forall (safe_op r) patch -> no_root_entry r document ->
  replay applyOperation document patch = Ok document' ->
  no_root_entry r document'.
Proof.
  revert document. induction patch as [|o rest IH]; intros document Hsafe Hdoc.
  - simpl. by intros [= <-].
  - apply Forall_cons in Hsafe as [Ho Hsafe]. simpl.
    destruct (applyOperation document o) as [d|] eqn:E; [|done].
    apply IH; [done|]. by eapply applyOperation_no_root_entry.
Qed.

(** ** Paths written by the tracer *)

Lemma split_slash_nonempty (s : string) :
  exists seg segs, split_slash s = seg :: segs.
Proof.
  induction s as [|c s (seg & segs & IH)]; simpl; [by eexists _, _|].
  destruct (Ascii.eqb c slash); [by eexists _, _|].
  rewrite IH. by eexists _, _.
Qed.

Lemma split_slash_app (a b : string) :
  split_slash (a +:+ String slash b) = split_slash a ++ split_slash b.
Proof.
  induction a as [|c a IH]; simpl.
  - reflexivity.
  - destruct (Ascii.eqb c slash); [by rewrite IH|].
    rewrite IH. by destruct (split_slash_nonempty a) as (seg & segs & ->).
Qed.

Lemma pointer_segments_logs (s : string) :
  pointer_segments ("/logs/" +:+ s) = Some ("logs" :: split_slash s).
Proof.
  change ("/logs/" +:+ s) with (String slash ("logs" +:+ String slash s)).
  unfold pointer_segments. rewrite Ascii.eqb_refl. by rewrite split_slash_app.
Qed.

(** An operation on a property of an entry, below [/logs/<key>]. *)
Lemma safe_op_below_entry (r : string) (kind : OpKind) (key suffix : string)
    (v : value) :
  kind <> OpRemove ->
  last (split_slash suffix) <> Some "id" ->
  safe_op r (mkOp kind ("/logs/" +:+ key +:+ String slash suffix) v).
Proof.
  intros Hkind Hlast. unfold safe_op. simpl path.
  rewrite pointer_segments_logs, split_slash_app.
  destruct (split_slash_nonempty key) as (k & rest & ->).
  destruct (split_slash_nonempty suffix) as (f & fs & Hs).
  rewrite Hs in *. simpl. repeat split; [done | |].
  - intros H. by apply app_eq_nil in H as [_ ?].
  - intros H. exfalso. apply Hlast.
    assert (Hl : last (rest ++ f :: fs) = Some "id") by (by rewrite H).
    rewrite last_app in Hl.
    destruct (last (f :: fs)) eqn:E; [done | by apply last_None in E].
Qed.

(** The operation that logs a new entry with an id other than [r]. *)
Lemma safe_op_new_entry (r : string) (key : string) (entry : KVMap) :
  get entry "id" <> VStr r ->
  safe_op r (mkOp OpAdd ("/logs/" +:+ key) (VObj entry)).
Proof.
  intros Hid. unfold safe_op. simpl path. rewrite pointer_segments_logs.
  destruct (split_slash_nonempty key) as (k & rest & ->). simpl.
  repeat split; done.
Qed.

(** ** The root run is never logged *)

Section RootNeverLogged.
Variable toISOString : Z -> string.

(** Before the root is known no key was assigned and what was written is
    safe for every id; afterwards the root has no key and every operation
    written is safe for it. *)
Definition tracer_inv (h : LogStreamCallbackHandler) : Prop :=
  match rootId h with
  | None =>
      keyMapByRunId h = ∅ /\ forall r, Forall (safe_op r) (written_ops h)
  | Some r =>
      keyMapByRunId h !! r = None /\ Forall (safe_op r) (written_ops h)
  end.

Lemma tracer_inv_new (fields : LogStreamCallbackHandlerInput) :
  tracer_inv (new_LogStreamCallbackHandler fields).
Proof. split; [done|]. intros r. constructor. Qed.

Lemma written_ops_snoc (h h' : LogStreamCallbackHandler) (patch : RunLogPatch) :
  written h' = written h ++ [patch] ->
  written_ops h' = written_ops h ++ ops patch.
Proof.
  unfold written_ops. intros ->.
  by rewrite map_app, concat_app; simpl; rewrite app_nil_r.
Qed.

Lemma tracer_inv_write (r : string) (patch : RunLogPatch)
    (h : LogStreamCallbackHandler) :
  rootId h = Some r -> tracer_inv h -> Forall (safe_op r) (ops patch) ->
  tracer_inv (fst (writer_write patch h))
  /\ rootId (fst (writer_write patch h)) = Some r.
Proof.
  unfold tracer_inv, writer_write. intros Hr. rewrite Hr. intros [Hk Hw] Hp.
  destruct (writer_closed h); simpl; rewrite Hr; [done|].
  split; [|done]. split; [done|].
  rewrite (written_ops_snoc h _ patch) by done. by apply Forall_app.
Qed.

(** A patch that is safe for every id can be written at any time. *)
Lemma tracer_inv_write_any (patch : RunLogPatch) (h : LogStreamCallbackHandler) :
  tracer_inv h -> (forall r, Forall (safe_op r) (ops patch)) ->
  tracer_inv (fst (writer_write patch h))
  /\ rootId (fst (writer_write patch h)) = rootId h.
Proof.
  intros Hinv Hp. destruct (rootId h) as [r|] eqn:Hr.
  - by apply tracer_inv_write.
  - unfold tracer_inv, writer_write in *. rewrite Hr in Hinv.
    destruct Hinv as [Hk Hw].
    destruct (writer_closed h); simpl; rewrite Hr; [done|].
    split; [|done]. split; [done|]. intros r.
    rewrite (written_ops_snoc h _ patch) by done. by apply Forall_app.
Qed.

Lemma base_logEntry_id (run : Run.t) (format : SchemaFormat) (entry : KVMap) :
  new_logEntry toISOString run format = Ok entry ->
  get entry "id" = VStr (Run.id run).
Proof.
  unfold new_logEntry. destruct format; [by intros [= <-]|].
  destruct (_getStandardizedInputs run streaming_events); [|done].
  by intros [= <-].
Qed.

Lemma root_document_no_entry (r : string) (run : Run.t) :
  no_root_entry r (root_document run).
Proof.
  intros logs entry. simpl. intros [= <-]. simpl. by intros H%elem_of_nil.
Qed.

Lemma tracer_inv_onRunCreate (run : Run.t) (h : LogStreamCallbackHandler) :
  tracer_inv h -> tracer_inv (fst (onRunCreate toISOString run h)).
Proof.
  intros Hinv. rewrite onRunCreate_unfold.
  cbv [register_root bind gets modify ret].
  destruct (rootId h) as [r|] eqn:Hr.
  - destruct (_includeRun h run) eqn:Hinc; [|done].
    assert (Hne : Run.id run <> r).
    { rewrite includeRun_formula in Hinc.
      apply andb_true_iff in Hinc as [Hinc _].
      apply andb_true_iff in Hinc as [Hinc _].
      apply negb_true_iff, is_root_false in Hinc. congruence. }
    assert (Hinv' : tracer_inv (assign_key run h)).
    { unfold tracer_inv in *. simpl. rewrite Hr in *.
      destruct Hinv as [Hk Hw]. split; [|done].
      by rewrite assign_property_lookup_ne. }
    destruct (Date_toISOString toISOString (Run.start_time run)); [|done].
    destruct (new_logEntry toISOString run (_schemaFormat h)) as [entry|]
      eqn:He; [|done].
    apply (tracer_inv_write r); [done | done |].
    apply Forall_singleton, safe_op_new_entry.
    rewrite (base_logEntry_id _ _ _ He). congruence.
  - unfold tracer_inv in Hinv. rewrite Hr in Hinv. destruct Hinv as [Hk Hw].
    unfold writer_write. simpl.
    assert (Hroot : forall h', rootId h' = Some (Run.id run) ->
                     _includeRun h' run = false).
    { intros h' Hh'. rewrite includeRun_formula.
      apply is_root_true in Hh'. by rewrite Hh'. }
    destruct (writer_closed h); simpl.
    + unfold tracer_inv. simpl. rewrite Hk. split; [apply lookup_empty | apply Hw].
    + rewrite Hroot by done. unfold tracer_inv. simpl.
      rewrite Hk. split; [apply lookup_empty|].
      unfold written_ops. simpl. rewrite map_app, concat_app. simpl.
      apply Forall_app. split; [apply Hw|].
      apply Forall_singleton. unfold safe_op. simpl.
      apply root_document_no_entry.
Qed.

Ltac below_entry :=
  apply safe_op_below_entry; [done | vm_compute; discriminate].

Lemma update_ops_safe (r : string) (run : Run.t) (format : SchemaFormat)
    (runName : string) (ops : list Operation) :
  update_ops toISOString run format runName = Ok ops ->
  Forall (safe_op r) ops.
Proof.
  unfold update_ops. intros H.
  assert (Hfinal : safe_op r
            (mkOp OpAdd ("/logs/" +:+ runName +:+ "/final_output")
               (_getStandardizedOutputs run format))) by below_entry.
  assert (Hend : forall v, safe_op r
            (mkOp OpAdd ("/logs/" +:+ runName +:+ "/end_time") v))
    by (intros v; below_entry).
  assert (Hinputs : forall v, safe_op r
            (mkOp OpReplace ("/logs/" +:+ runName +:+ "/inputs") v))
    by (intros v; below_entry).
  destruct format.
  - destruct (Run.end_time run) as [t|];
      [destruct (Date_toISOString toISOString t); [|done]|];
      injection H as <-; repeat constructor; done.
  - destruct (_getStandardizedInputs run streaming_events); [|done].
    destruct (Run.end_time run) as [t|];
      [destruct (Date_toISOString toISOString t); [|done]|];
      injection H as <-; repeat constructor; done.
Qed.

Lemma tracer_inv_onRunUpdate (run : Run.t) (h : LogStreamCallbackHandler) :
  tracer_inv h -> tracer_inv (fst (onRunUpdate toISOString run h)).
Proof.
  intros Hinv.
  assert (H1 : tracer_inv (fst (update_entry toISOString run h))
               /\ rootId (fst (update_entry toISOString run h)) = rootId h).
  { cbv [update_entry bind gets lift].
    destruct (lookup_property id (keyMapByRunId h) (Run.id run))
      as [runName|] eqn:Hk; [|done].
    destruct (update_ops toISOString run (_schemaFormat h) runName) as [ops|]
      eqn:Hops; [|done].
    apply tracer_inv_write_any; [done|]. intros r. by eapply update_ops_safe. }
  destruct H1 as [H1 Hroot].
  unfold onRunUpdate, try_finally.
  destruct (update_entry toISOString run h) as [h1 r1]. simpl in *.
  assert (H2 : tracer_inv (fst (finish_root run h1))).
  { cbv [finish_root bind gets].
    destruct (is_root h1 (Run.id run)) eqn:Hroot1; [|done].
    apply is_root_true in Hroot1.
    destruct (tracer_inv_write (Run.id run)
                (mkRunLogPatch
                   [mkOp OpReplace "/final_output"
                      (_getStandardizedOutputs run (_schemaFormat h1))]) h1)
      as [Hw Hr']; [done | done | |].
    { apply Forall_singleton. unfold safe_op. simpl. discriminate. }
    destruct (writer_write _ h1) as [h2 [[]|m]]; simpl in *; [|done].
    destruct (autoClose h2); [|done].
    unfold writer_close. destruct (writer_closed h2); done. }
  destruct (finish_root run h1) as [h2 [|]]; done.
Qed.

Lemma tracer_inv_onLLMNewToken (run : Run.t) (token : string) (chunk : value)
    (h : LogStreamCallbackHandler) :
  tracer_inv h -> tracer_inv (fst (onLLMNewToken run token chunk h)).
Proof.
  intros Hinv. cbv [onLLMNewToken bind gets].
  destruct (lookup_property id (keyMapByRunId h) (Run.id run))
    as [runName|] eqn:Hk; [|done].
  apply tracer_inv_write_any; [done|]. intros r.
  repeat constructor; below_entry.
Qed.

Lemma tracer_inv_tapOutputIterable_chunk (runId : string) (chunk : value)
    (h : LogStreamCallbackHandler) :
  tracer_inv h -> tracer_inv (fst (tapOutputIterable_chunk runId chunk h)).
Proof.
  intros Hinv. cbv [tapOutputIterable_chunk bind gets].
  destruct (is_root h runId); [done|].
  destruct (lookup_property id (keyMapByRunId h) runId) as [[|c k]|] eqn:Hk;
    [done| |done].
  apply tracer_inv_write_any; [done|]. intros r.
  repeat constructor; below_entry.
Qed.

Lemma tracer_inv_deliver (ns : list Notification) (h : LogStreamCallbackHandler) :
  tracer_inv h -> tracer_inv (deliver toISOString h ns).
Proof.
  revert h. induction ns as [|n ns IH]; intros h Hinv; [done|].
  rewrite deliver_cons. apply IH.
  destruct n; simpl.
  - by apply tracer_inv_onRunCreate.
  - by apply tracer_inv_onRunUpdate.
  - by apply tracer_inv_onLLMNewToken.
  - by apply tracer_inv_tapOutputIterable_chunk.
Qed.

(** The document a consumer materializes from everything written. *)
Definition materialize (h : LogStreamCallbackHandler) : result value :=
  replay applyOperation empty_document (written_ops h).

(** C4.  Whatever the filter configuration and the notifications
    delivered, once the tracer has a root: [_includeRun] rejects every run
    with the root's id, the root has no key, and in the document
    materialized from the patches written no entry under [logs] carries the
    root's id. *)
Theorem root_run_never_logged (fields : LogStreamCallbackHandlerInput)
    (ns : list Notification) (r : string) :
  let h := deliver toISOString (new_LogStreamCallbackHandler fields) ns in
  rootId h = Some r ->
  (forall run, Run.id run = r -> _includeRun h run = false)
  /\ keyMapByRunId h !! r = None
  /\ forall document logs key entry,
       materialize h = Ok document ->
       child_at "logs" document = Some logs ->
       child_at key logs = Some entry ->
       prop entry "id" <> VStr r.
Proof.
  intros h Hr.
  pose proof (tracer_inv_deliver ns _ (tracer_inv_new fields)) as Hinv.
  fold h in Hinv. unfold tracer_inv in Hinv. rewrite Hr in Hinv.
  destruct Hinv as [Hk Hw]. split; [|split; [done|]].
  - intros run <-. rewrite includeRun_formula.
    apply is_root_true in Hr. by rewrite Hr.
  - intros document logs key entry Hm Hlogs Hentry.
    assert (Hdoc : no_root_entry r document).
    { eapply replay_no_root_entry; [exact Hw | | exact Hm].
      by intros logs' entry' H. }
    apply (Hdoc logs entry Hlogs). by eapply child_at_members.
Qed.
End RootNeverLogged.

Definition reverse_run (ended : option Z) (outputs : option KVMap) : Run.t :=
  Run.mk "r1" "reverse" "chain" None None 0 ended
    [("input", VStr "hello")] outputs.

(** A root with one sub-run that streams a chunk and completes. *)
Definition traced_pipeline : list Notification :=
  [RunCreate (plain_run "root" "pipeline");
   RunCreate (reverse_run None None);
   TapChunk "r1" (VStr "olleh");
   RunUpdate (reverse_run (Some 5%Z) (Some [("output", VStr "olleh")]));
   RunUpdate (Run.mk "root" "pipeline" "chain" None None 0 (Some 6%Z) []
                (Some [("output", VStr "olleh")]))].

Lemma root_run_never_logged_witness :
  let h := deliver epoch_string (new_LogStreamCallbackHandler no_filter)
             traced_pipeline in
  rootId h = Some "root"
  /\ exists document logs entry,
       materialize h = Ok document
       /\ child_at "logs" document = Some logs
       /\ child_at "reverse" logs = Some entry
       /\ prop entry "id" <> VStr "root".
Proof.
  intros h.
  assert (Hroot : rootId h = Some "root") by (vm_compute; reflexivity).
  split; [exact Hroot|].
  destruct (root_run_never_logged epoch_string no_filter traced_pipeline
              "root" Hroot) as (_ & _ & H).
  fold h in H.
  destruct (materialize h) as [document|] eqn:Hm; [|vm_compute in Hm; discriminate].
  destruct (child_at "logs" document) as [logs|] eqn:Hlogs;
    [|vm_compute in Hm; injection Hm as <-; vm_compute in Hlogs; discriminate].
  destruct (child_at "reverse" logs) as [entry|] eqn:Hentry;
    [|vm_compute in Hm; injection Hm as <-; vm_compute in Hlogs;
      injection Hlogs as <-; vm_compute in Hentry; discriminate].
  exists document, logs, entry. repeat split; try done.
  by apply (H document logs "reverse" entry).
Defined.

(** * Further properties of the code *)

(** ** Patch containers: composition *)

Section PatchContainerLaws.
Variable primitive : value -> Operation -> result value.

(** [RunLog.concat] on a patch with operations, in terms of [replay]. *)
Lemma RunLog_concat_replay (L : RunLog) (P : RunLogPatch) :
  ops P <> [] ->
  RunLog_concat primitive L P
  = match replay primitive (state L) (ops P) with
    | Ok document => Ok (mkRunLog (log_ops L ++ ops P) document)
    | Throw m => Throw m
    end.
Proof.
  intros Hne. unfold RunLog_concat.
  pose proof (last_newDocument_replay primitive (ops P) (state L) Hne) as H.
  destruct (applyPatch primitive (state L) (ops P)) as [states|m].
  - destruct (last_state states); by rewrite <- H.
  - by rewrite <- H.
Qed.

(** X3.  Incremental concatenation composes: for patches [P] and [Q] with
    operations, concatenating [P] and then [Q] onto a log has the outcome
    of concatenating the patch that holds the operations of [P] followed by
    those of [Q], a failure of the first step included. *)
Theorem RunLog_concat_assoc (L : RunLog) (P Q : RunLogPatch) :
  ops P <> [] -> ops Q <> [] ->
  RunLog_concat primitive L (mkRunLogPatch (ops P ++ ops Q))
  = match RunLog_concat primitive L P with
    | Ok L' => RunLog_concat primitive L' Q
    | Throw m => Throw m
    end.
Proof.
  intros HP HQ.
  rewrite (RunLog_concat_replay L P) by done.
  rewrite RunLog_concat_replay by (simpl; intros H; by apply app_eq_nil in H as [? _]).
  simpl. rewrite replay_app.
  destruct (replay primitive (state L) (ops P)) as [document|]; [|done].
  rewrite RunLog_concat_replay by done. simpl.
  by rewrite app_assoc.
Qed.

End PatchContainerLaws.

Definition add_entry_patch : RunLogPatch :=
  mkRunLogPatch [mkOp OpAdd "/logs/reverse" (VObj [("id", VStr "r1")])].

Definition add_output_patch : RunLogPatch :=
  mkRunLogPatch [mkOp OpAdd "/logs/reverse/final_output" (VStr "olleh")].

Lemma RunLog_concat_assoc_witness :
  RunLog_concat applyOperation one_op_log
    (mkRunLogPatch (ops add_entry_patch ++ ops add_output_patch))
  = match RunLog_concat applyOperation one_op_log add_entry_patch with
    | Ok L' => RunLog_concat applyOperation L' add_output_patch
    | Throw m => Throw m
    end.
Proof.
  apply (RunLog_concat_assoc applyOperation one_op_log add_entry_patch
           add_output_patch); vm_compute; discriminate.
Defined.

(** ** The tracer: what a notification can change *)

(** The settings fixed by the constructor. *)
Definition same_config (h h' : LogStreamCallbackHandler) : Prop :=
  autoClose h' = autoClose h
  /\ includeNames h' = includeNames h
  /\ includeTypes h' = includeTypes h
  /\ includeTags h' = includeTags h
  /\ excludeNames h' = excludeNames h
  /\ excludeTypes h' = excludeTypes h
  /\ excludeTags h' = excludeTags h
  /\ _schemaFormat h' = _schemaFormat h.

(** The operations the tracer writes: additions and replacements, at the
    document root, at [/final_output] or below [/logs/]. *)
Definition tracer_op (o : Operation) : Prop :=
  op o <> OpRemove
  /\ (path o = "" \/ path o = "/final_output"
      \/ exists rest, path o = "/logs/" +:+ rest).

Definition tracer_patch (patch : RunLogPatch) : Prop :=
  ops patch <> [] /\ Forall tracer_op (ops patch).

(** The root after a notification: the first run created, once and for
    all. *)
Definition root_after (n : Notification) (root : option string)
  : option string :=
  match root, n with
  | Some r, _ => Some r
  | None, RunCreate run => Some (Run.id run)
  | None, _ => None
  end.

(** The end time of a run, when it has one, is a valid time value. *)
Definition end_time_valid (run : Run.t) : Prop :=
  match Run.end_time run with
  | Some t => valid_time t = true
  | None => True
  end.

(** The dates a notification may have to format are valid time values. *)
Definition dates_valid (n : Notification) : Prop :=
  match n with
  | RunCreate run => valid_time (Run.start_time run) = true
  | RunUpdate run => end_time_valid run
  | _ => True
  end.

Definition effect (n : Notification) (h : LogStreamCallbackHandler)
    (out : LogStreamCallbackHandler * result unit) : Prop :=
  same_config h (fst out)
  /\ rootId (fst out) = root_after n (rootId h)
  /\ (exists patches,
        written (fst out) = written h ++ patches
        /\ Forall tracer_patch patches
        /\ (writer_closed h = true -> patches = []))
  /\ (writer_closed h = true -> writer_closed (fst out) = true)
  /\ (autoClose h = false -> writer_closed (fst out) = writer_closed h)
  /\ (writer_closed h = false -> dates_valid n -> snd out = Ok tt).

Section TracerEffects.
Variable toISOString : Z -> string.

Lemma new_logEntry_returns (run : Run.t) (format : SchemaFormat) (m : string) :
  new_logEntry toISOString run format <> Throw m.
Proof.
  unfold new_logEntry, _getStandardizedInputs. destruct format; [done|].
  repeat case_match; done.
Qed.

Lemma Date_toISOString_returns (t : Z) (m : string) :
  valid_time t = true -> Date_toISOString toISOString t <> Throw m.
Proof. unfold Date_toISOString. by intros ->. Qed.

(** Only an invalid end time makes [update_ops] throw. *)
Lemma update_ops_returns (run : Run.t) (format : SchemaFormat)
    (runName : string) (m : string) :
  end_time_valid run -> update_ops toISOString run format runName <> Throw m.
Proof.
  unfold end_time_valid, update_ops, _getStandardizedInputs, Date_toISOString.
  intros Hv. destruct (Run.end_time run) as [t|]; [rewrite Hv|];
    destruct format; repeat case_match; done.
Qed.

Lemma tracer_op_logs (kind : OpKind) (rest : string) (v : value) :
  kind <> OpRemove -> tracer_op (mkOp kind ("/logs/" +:+ rest) v).
Proof. intros Hk. split; [done|]. right. right. by exists rest. Qed.

Ltac below_logs :=
  repeat (apply List.Forall_cons; [by apply tracer_op_logs|]);
  apply List.Forall_nil.

Lemma update_ops_shape (run : Run.t) (format : SchemaFormat)
    (runName : string) (ops : list Operation) :
  update_ops toISOString run format runName = Ok ops ->
  tracer_patch (mkRunLogPatch ops).
Proof.
  unfold update_ops, tracer_patch. intros H.
  destruct format.
  - destruct (Run.end_time run) as [t|];
      [destruct (Date_toISOString toISOString t); [|done]|];
      injection H as <-; (split; [done | below_logs]).
  - destruct (_getStandardizedInputs run streaming_events); [|done].
    destruct (Run.end_time run) as [t|];
      [destruct (Date_toISOString toISOString t); [|done]|];
      injection H as <-; (split; [done | below_logs]).
Qed.

Ltac op_ok :=
  split;
  [ done
  | first [ left; reflexivity
          | right; left; reflexivity
          | right; right; eexists; reflexivity ] ].

Ltac patch_ok :=
  first
    [ eapply update_ops_shape; eassumption
    | split; [done|];
      repeat (apply List.Forall_cons; [op_ok|]); apply List.Forall_nil ].

Ltac patches_ok :=
  repeat (apply List.Forall_cons; [patch_ok|]); apply List.Forall_nil.

Ltac written_ok :=
  first
    [ exists []; split; [by rewrite app_nil_r|]; split; [patches_ok | done]
    | eexists [_]; split; [reflexivity|]; split; [patches_ok | congruence]
    | eexists [_; _]; split; [by rewrite <- app_assoc|];
      split; [patches_ok | congruence] ].

Ltac finish_effect :=
  unfold effect, same_config; simpl;
  repeat match goal with
    | |- _ /\ _ => split
    end;
  try done; try congruence;
  try (match goal with
       | H : rootId _ = _ |- _ => by rewrite H
       end);
  try (unfold root_after; by destruct (rootId _));
  try written_ok;
  try (by intros; exfalso; eauto).

Lemma effect_onRunCreate (run : Run.t) (h : LogStreamCallbackHandler) :
  effect (RunCreate run) h (onRunCreate toISOString run h).
Proof.
  rewrite onRunCreate_unfold.
  cbv [register_root bind gets modify ret writer_write].
  destruct (rootId h) as [r|] eqn:Hr; simpl.
  - destruct (_includeRun h run); [|finish_effect].
    destruct (Date_toISOString toISOString (Run.start_time run))
      as [start|m] eqn:Hd.
    + destruct (new_logEntry toISOString run (_schemaFormat h)) as [e|m] eqn:He.
      * destruct (writer_closed h) eqn:Hc; finish_effect.
      * by apply new_logEntry_returns in He.
    + assert (Hbad : dates_valid (RunCreate run) -> False).
      { intros Hv. by apply Date_toISOString_returns in Hd. }
      finish_effect.
  - destruct (writer_closed h) eqn:Hc; simpl; [finish_effect|].
    rewrite includeRun_formula. unfold is_root at 1. simpl.
    rewrite String.eqb_refl. simpl. finish_effect.
Qed.

Lemma is_root_set_written (w : list RunLogPatch) (h : LogStreamCallbackHandler)
    (run_id : string) :
  is_root (set_written w h) run_id = is_root h run_id.
Proof. reflexivity. Qed.

Lemma effect_onRunUpdate (run : Run.t) (h : LogStreamCallbackHandler) :
  effect (RunUpdate run) h (onRunUpdate toISOString run h).
Proof.
  cbv [onRunUpdate try_finally update_entry finish_root bind gets lift ret
       writer_write writer_close].
  destruct (lookup_property id (keyMapByRunId h) (Run.id run)) as [runName|].
  - destruct (update_ops toISOString run (_schemaFormat h) runName)
      as [ops|m] eqn:Hops.
    + destruct (writer_closed h) eqn:Hc; simpl;
        rewrite ?is_root_set_written;
        destruct (is_root h (Run.id run)); simpl; rewrite ?Hc; simpl;
        try (destruct (autoClose h) eqn:Ha; simpl; rewrite ?Hc; simpl);
        finish_effect.
    + assert (Hbad : dates_valid (RunUpdate run) -> False).
      { intros Hv. by apply update_ops_returns in Hops. }
      simpl. destruct (is_root h (Run.id run)); simpl; [|finish_effect].
      destruct (writer_closed h) eqn:Hc; simpl;
        try (destruct (autoClose h) eqn:Ha; simpl; rewrite ?Hc; simpl);
        finish_effect.
  - simpl. destruct (is_root h (Run.id run)); simpl; [|finish_effect].
    destruct (writer_closed h) eqn:Hc; simpl;
      try (destruct (autoClose h) eqn:Ha; simpl; rewrite ?Hc; simpl);
      finish_effect.
Qed.

Lemma effect_onLLMNewToken (run : Run.t) (token : string) (chunk : value)
    (h : LogStreamCallbackHandler) :
  effect (LLMNewToken run token chunk) h (onLLMNewToken run token chunk h).
Proof.
  cbv [onLLMNewToken bind gets ret writer_write].
  destruct (lookup_property id (keyMapByRunId h) (Run.id run)) as [runName|];
    [|finish_effect].
  destruct (writer_closed h) eqn:Hc; finish_effect.
Qed.

Lemma effect_tapOutputIterable_chunk (runId : string) (chunk : value)
    (h : LogStreamCallbackHandler) :
  effect (TapChunk runId chunk) h (tapOutputIterable_chunk runId chunk h).
Proof.
  cbv [tapOutputIterable_chunk bind gets ret writer_write].
  destruct (is_root h runId); [finish_effect|].
  destruct (lookup_property id (keyMapByRunId h) runId) as [[|c k]|];
    [finish_effect | | finish_effect].
  destruct (writer_closed h) eqn:Hc; finish_effect.
Qed.

(** What one notification can change. *)
Lemma effect_notify (n : Notification) (h : LogStreamCallbackHandler) :
  effect n h (notify toISOString n h).
Proof.
  destruct n; simpl.
  - apply effect_onRunCreate.
  - apply effect_onRunUpdate.
  - apply effect_onLLMNewToken.
  - apply effect_tapOutputIterable_chunk.
Qed.
End TracerEffects.

(** ** The tracer: laws of the output channel, the root and the filter *)

Section TracerLaws.
Variable toISOString : Z -> string.

Lemma same_config_refl (h : LogStreamCallbackHandler) : same_config h h.
Proof. by repeat split. Qed.

Lemma same_config_trans (h1 h2 h3 : LogStreamCallbackHandler) :
  same_config h1 h2 -> same_config h2 h3 -> same_config h1 h3.
Proof.
  unfold same_config. intros (?&?&?&?&?&?&?&?) (?&?&?&?&?&?&?&?).
  repeat split; congruence.
Qed.

(** What a sequence of notifications can change. *)
Lemma effect_deliver (ns : list Notification) (h : LogStreamCallbackHandler) :
  same_config h (deliver toISOString h ns)
  /\ (forall r, rootId h = Some r -> rootId (deliver toISOString h ns) = Some r)
  /\ (exists patches,
        written (deliver toISOString h ns) = written h ++ patches
        /\ Forall tracer_patch patches
        /\ (writer_closed h = true -> patches = []))
  /\ (writer_closed h = true -> writer_closed (deliver toISOString h ns) = true)
  /\ (autoClose h = false ->
      writer_closed (deliver toISOString h ns) = writer_closed h).
Proof.
  revert h. induction ns as [|n ns IH]; intros h.
  - simpl. split; [apply same_config_refl|]. split; [done|].
    split; [|done]. exists []. by rewrite app_nil_r.
  - rewrite deliver_cons.
    destruct (effect_notify toISOString n h)
      as (Hcfg & Hroot & (ps & Hw & Hps & Hnil) & Hclosed & Hauto & _).
    destruct (IH (fst (notify toISOString n h)))
      as (Hcfg' & Hroot' & (ps' & Hw' & Hps' & Hnil') & Hclosed' & Hauto').
    split; [by eapply same_config_trans|]. split.
    { intros r Hr. apply Hroot'. rewrite Hroot, Hr. done. }
    split.
    { exists (ps ++ ps'). rewrite Hw', Hw, app_assoc. split; [done|].
      split; [by apply Forall_app|].
      intros Hc. rewrite (Hnil Hc), (Hnil' (Hclosed Hc)). done. }
    split; [by auto|].
    intros Ha. rewrite Hauto', Hauto; [done | done |].
    destruct Hcfg as [-> _]. done.
Qed.

(** X4.  While the output channel is open, a notification whose dates are
    valid time values does not fail: each of [onRunCreate], [onRunUpdate],
    [onLLMNewToken] and a turn of [tapOutputIterable] returns normally.  In
    particular the error that [_getStandardizedInputs] raises under the
    original schema format is never reached from the tracer. *)
Theorem notification_succeeds_while_open (n : Notification)
    (h : LogStreamCallbackHandler) :
  writer_closed h = false -> dates_valid n ->
  snd (notify toISOString n h) = Ok tt.
Proof.
  intros Hopen Hv.
  by destruct (effect_notify toISOString n h) as (_&_&_&_&_&H); auto.
Qed.

(** X5.  The output channel is append-only, and every patch written holds
    at least one operation: after any notifications, what was written is
    what was written before followed by patches none of which is empty. *)
Theorem channel_is_append_only (ns : list Notification)
    (h : LogStreamCallbackHandler) :
  exists patches,
    written (deliver toISOString h ns) = written h ++ patches
    /\ Forall (fun patch => ops patch <> []) patches.
Proof.
  destruct (effect_deliver ns h) as (_ & _ & (ps & Hw & Hps & _) & _).
  exists ps. split; [done|].
  eapply Forall_impl; [exact Hps|]. by intros p [Hne _].
Qed.

(** X6.  Every operation a tracer ever writes is an addition or a
    replacement, never a removal, and its path is the document root,
    [/final_output], or a path below [/logs/]. *)
Theorem tracer_writes_no_removal (fields : LogStreamCallbackHandlerInput)
    (ns : list Notification) :
  Forall tracer_op
    (written_ops (deliver toISOString (new_LogStreamCallbackHandler fields) ns)).
Proof.
  destruct (effect_deliver ns (new_LogStreamCallbackHandler fields))
    as (_ & _ & (ps & Hw & Hps & _) & _).
  unfold written_ops. rewrite Hw. simpl. clear Hw.
  induction Hps as [|p ps [_ Hp] _ IH]; simpl; [done|].
  by apply Forall_app.
Qed.

(** X7.  Closing is final: once the channel is closed, no notification
    writes anything more and the channel stays closed. *)
Theorem closed_channel_is_final (ns : list Notification)
    (h : LogStreamCallbackHandler) :
  writer_closed h = true ->
  written (deliver toISOString h ns) = written h
  /\ writer_closed (deliver toISOString h ns) = true.
Proof.
  intros Hc.
  destruct (effect_deliver ns h) as (_ & _ & (ps & Hw & _ & Hnil) & Hclosed & _).
  split; [|auto]. by rewrite Hw, (Hnil Hc), app_nil_r.
Qed.

(** X8.  A tracer built with [autoClose: false] never closes its channel,
    whatever notifications it receives. *)
Theorem autoClose_false_never_closes (ns : list Notification)
    (h : LogStreamCallbackHandler) :
  autoClose h = false ->
  writer_closed (deliver toISOString h ns) = writer_closed h.
Proof. intros Ha. by destruct (effect_deliver ns h) as (_&_&_&_&H); auto. Qed.


(** X10.  The first run created on a fresh tracer becomes the root for
    good: after any further notifications it is still the root, and the
    first patch written is the replacement of the whole document by its
    root document. *)
Theorem first_run_is_root (fields : LogStreamCallbackHandlerInput)
    (run : Run.t) (ns : list Notification) :
  let h := deliver toISOString (new_LogStreamCallbackHandler fields)
             (RunCreate run :: ns) in
  rootId h = Some (Run.id run)
  /\ exists patches,
       written h
       = mkRunLogPatch [mkOp OpReplace "" (root_document run)] :: patches.
Proof.
  intros h. unfold h. rewrite deliver_cons.
  set (h1 := fst (notify toISOString (RunCreate run)
                    (new_LogStreamCallbackHandler fields))).
  assert (H1 : rootId h1 = Some (Run.id run)
               /\ written h1
                  = [mkRunLogPatch [mkOp OpReplace "" (root_document run)]]).
  { unfold h1. simpl. rewrite onRunCreate_unfold.
    cbv [register_root bind gets modify ret writer_write]. simpl.
    assert (Hf : forall h', rootId h' = Some (Run.id run) ->
                   _includeRun h' run = false).
    { intros h' Hh'. rewrite includeRun_formula.
      apply is_root_true in Hh'. by rewrite Hh'. }
    by rewrite Hf. }
  destruct H1 as [Hr Hw].
  destruct (effect_deliver ns h1) as (_ & Hroot & (ps & Hw' & _) & _).
  split; [by apply Hroot|]. exists ps. by rewrite Hw', Hw.
Qed.

Lemma includeRun_same (h h' : LogStreamCallbackHandler) (run : Run.t) :
  same_config h h' -> rootId h' = rootId h ->
  _includeRun h' run = _includeRun h run.
Proof.
  intros (_ & Hn & Hy & Ht & Hxn & Hxy & Hxt & _) Hr.
  rewrite !includeRun_formula.
  unfold is_root, include_decision_b, no_exclude_veto_b.
  by rewrite Hr, Hn, Hy, Ht, Hxn, Hxy, Hxt.
Qed.

(** X11.  Once the root is known the filter is fixed: the answer of
    [_includeRun] for a run is the same after any notifications. *)
Theorem filter_is_stable (ns : list Notification)
    (h : LogStreamCallbackHandler) (run : Run.t) (r : string) :
  rootId h = Some r ->
  _includeRun (deliver toISOString h ns) run = _includeRun h run.
Proof.
  intros Hr. destruct (effect_deliver ns h) as (Hcfg & Hroot & _).
  apply includeRun_same; [done|]. by rewrite (Hroot r Hr).
Qed.

(** X12.  A notification about a run for which the read of
    [keyMapByRunId] gives undefined (the run has no key of its own, because
    it was filtered out or never created, and its id is not a member of
    [Object.prototype]) and which is not the root is ignored: the
    completion, a token and a tapped chunk all leave the tracer as it is
    and return normally. *)
Theorem unknown_run_is_ignored (run : Run.t) (token : string) (chunk : value)
    (h : LogStreamCallbackHandler) :
  keyMapByRunId h !! Run.id run = None ->
  inherited (Run.id run) = None ->
  rootId h <> Some (Run.id run) ->
  onRunUpdate toISOString run h = (h, Ok tt)
  /\ onLLMNewToken run token chunk h = (h, Ok tt)
  /\ tapOutputIterable_chunk (Run.id run) chunk h = (h, Ok tt).
Proof.
  intros Hown Hinh Hroot. apply is_root_false in Hroot.
  assert (Hk : lookup_property id (keyMapByRunId h) (Run.id run) = None)
    by (by apply lookup_property_undefined).
  cbv [onRunUpdate try_finally update_entry finish_root onLLMNewToken
       tapOutputIterable_chunk bind gets lift ret].
  rewrite Hk. simpl. rewrite Hroot. by rewrite Hk.
Qed.

(** X13.  The creation of a run that the filter rejects, on a tracer that
    has its root, changes nothing: no counter, no key, nothing written. *)
Theorem rejected_run_leaves_no_trace (run : Run.t)
    (h : LogStreamCallbackHandler) (r : string) :
  rootId h = Some r -> _includeRun h run = false ->
  onRunCreate toISOString run h = (h, Ok tt).
Proof.
  intros Hr Hinc. rewrite onRunCreate_unfold.
  cbv [register_root bind gets ret]. by rewrite Hr, Hinc.
Qed.

(** X14.  Exclusion dominates: a run whose name is in [excludeNames], whose
    type is in [excludeTypes], or one of whose tags is in [excludeTags] is
    never included, whatever the include sets select. *)
Theorem exclusion_dominates (h : LogStreamCallbackHandler) (run : Run.t) :
  (exists names, excludeNames h = Some names /\ Run.name run ∈ names)
  \/ (exists types, excludeTypes h = Some types /\ Run.run_type run ∈ types)
  \/ (exists tags tag, excludeTags h = Some tags
        /\ tag ∈ default [] (Run.tags run) /\ tag ∈ tags) ->
  _includeRun h run = false.
Proof.
  intros H. rewrite includeRun_formula.
  destruct (no_exclude_veto_b h run) eqn:Hv; [|by rewrite andb_false_r].
  exfalso. apply no_exclude_veto_b_true in Hv as (Hn & Hy & Ht).
  destruct H as [(names & Hx & Hin) | [(types & Hx & Hin)
                | (tags & tag & Hx & Hin & Hin')]].
  - by apply (Hn names).
  - by apply (Hy types).
  - by apply (Ht tags tag).
Qed.

(** X15.  A run logged under the empty key (the first logged run whose name
    is empty) loses its tapped chunks: [tapOutputIterable] tests the key
    for truth and writes nothing, while [onLLMNewToken], which tests it
    against undefined, writes the token's patch. *)
Theorem empty_key_drops_tapped_chunks (run : Run.t) (token : string)
    (chunk streamed : value) (h : LogStreamCallbackHandler) :
  keyMapByRunId h !! Run.id run = Some "" ->
  rootId h <> Some (Run.id run) ->
  writer_closed h = false ->
  tapOutputIterable_chunk (Run.id run) streamed h = (h, Ok tt)
  /\ exists value,
       written (fst (onLLMNewToken run token chunk h))
       = written h
         ++ [mkRunLogPatch
               [mkOp OpAdd "/logs//streamed_output_str/-" (VStr token);
                mkOp OpAdd "/logs//streamed_output/-" value]].
Proof.
  intros Hk Hroot Hc. apply is_root_false in Hroot.
  apply (lookup_property_own id) in Hk.
  cbv [onLLMNewToken tapOutputIterable_chunk bind gets ret writer_write].
  rewrite Hroot, Hk. simpl. rewrite Hc. split; [done|]. by eexists.
Qed.
End TracerLaws.

Definition root_created : LogStreamCallbackHandler :=
  deliver epoch_string (new_LogStreamCallbackHandler no_filter)
    [RunCreate (plain_run "root" "pipeline")].

Definition root_completed : LogStreamCallbackHandler :=
  deliver epoch_string root_created
    [RunUpdate (Run.mk "root" "pipeline" "chain" None None 0 (Some 6%Z) []
                  (Some [("output", VStr "olleh")]))].

Definition unnamed_logged : LogStreamCallbackHandler :=
  deliver epoch_string root_created [RunCreate (plain_run "e" "")].

Lemma notification_succeeds_while_open_witness :
  snd (notify epoch_string (RunCreate (reverse_run None None)) root_created)
  = Ok tt.
Proof.
  apply (notification_succeeds_while_open epoch_string
           (RunCreate (reverse_run None None)) root_created).
  - vm_compute. reflexivity.
  - vm_compute. reflexivity.
Defined.

Lemma closed_channel_is_final_witness :
  written (deliver epoch_string root_completed
             [RunCreate (reverse_run None None); TapChunk "r1" (VStr "x")])
  = written root_completed.
Proof.
  apply (closed_channel_is_final epoch_string
           [RunCreate (reverse_run None None); TapChunk "r1" (VStr "x")]
           root_completed).
  vm_compute. reflexivity.
Defined.

Lemma autoClose_false_never_closes_witness :
  writer_closed
    (deliver epoch_string
       (new_LogStreamCallbackHandler
          (mkInput (Some false) None None None None None None None))
       traced_pipeline)
  = false.
Proof.
  apply (autoClose_false_never_closes epoch_string traced_pipeline
           (new_LogStreamCallbackHandler
              (mkInput (Some false) None None None None None None None))).
  reflexivity.
Defined.


Lemma filter_is_stable_witness :
  _includeRun
    (deliver epoch_string filtered_handler
       [RunCreate (tagged_run "r3" "3" ["my_tag"])])
    (tagged_run "r2" "2" ["my_tag"])
  = _includeRun filtered_handler (tagged_run "r2" "2" ["my_tag"]).
Proof.
  apply (filter_is_stable epoch_string
           [RunCreate (tagged_run "r3" "3" ["my_tag"])] filtered_handler
           (tagged_run "r2" "2" ["my_tag"]) "root").
  reflexivity.
Defined.

Lemma unknown_run_is_ignored_witness :
  onRunUpdate epoch_string (reverse_run None None) root_created
  = (root_created, Ok tt).
Proof.
  apply (unknown_run_is_ignored epoch_string (reverse_run None None) "" VUndef
           root_created).
  - vm_compute. reflexivity.
  - vm_compute. reflexivity.
  - vm_compute. discriminate.
Defined.

Lemma rejected_run_leaves_no_trace_witness :
  onRunCreate epoch_string (tagged_run "r2" "2" ["my_tag"]) filtered_handler
  = (filtered_handler, Ok tt).
Proof.
  apply (rejected_run_leaves_no_trace epoch_string
           (tagged_run "r2" "2" ["my_tag"]) filtered_handler "root").
  - reflexivity.
  - vm_compute. reflexivity.
Defined.

Lemma exclusion_dominates_witness :
  _includeRun filtered_handler (tagged_run "r2" "2" ["my_tag"]) = false.
Proof.
  apply (exclusion_dominates filtered_handler (tagged_run "r2" "2" ["my_tag"])).
  left. exists ["2"]. split; [reflexivity | by left].
Defined.

Lemma empty_key_drops_tapped_chunks_witness :
  tapOutputIterable_chunk "e" (VStr "chunk") unnamed_logged
  = (unnamed_logged, Ok tt).
Proof.
  apply (empty_key_drops_tapped_chunks (plain_run "e" "") ""
           VUndef (VStr "chunk") unnamed_logged).
  - vm_compute. reflexivity.
  - vm_compute. discriminate.
  - vm_compute. reflexivity.
Defined.

(** The completion of a run that was never created but whose id is a
    member of [Object.prototype]: the read of its key gives the inherited
    member, and a patch is written below [/logs/]. *)
Lemma inherited_id_is_not_ignored :
  map (fun patch => map path (ops patch))
    (written
       (fst (onRunUpdate epoch_string (plain_run "constructor" "reverse")
               root_created)))
  = [[""]; ["/logs/function Object() { [native code] }/final_output"]].
Proof. vm_compute. reflexivity. Qed.

(** The completion of a root whose id is a member of [Object.prototype]
    and whose end time is not a valid time value: the channel is closed and
    the error of [toISOString] is raised. *)
Lemma root_completion_may_raise :
  let out :=
    onRunUpdate epoch_string
      (Run.mk "constructor" "pipeline" "chain" None None 0
         (Some 8640000000000001%Z) [] None)
      (deliver epoch_string (new_LogStreamCallbackHandler no_filter)
         [RunCreate (plain_run "constructor" "pipeline")]) in
  snd out = Throw invalid_time_value /\ writer_closed (fst out) = true.
Proof. vm_compute. done. Qed.

(** ** Marshalling: signatures, arrays and plain data *)

(** X16.  [isSuperset(set, subset)] answers true exactly when every element
    of [subset] is in [set]; the order of the keys and keys beyond the
    signature do not matter. *)
Theorem isSuperset_iff (set subset : list string) :
  isSuperset set subset = true <-> forall elem, elem ∈ subset -> elem ∈ set.
Proof.
  unfold isSuperset. rewrite forallb_forall. split.
  - intros H elem Hin. apply includes_elem_of, H. by apply list_elem_of_In.
  - intros H elem Hin. apply includes_elem_of, H. by apply list_elem_of_In.
Qed.

(** No class instance anywhere in the value. *)
Fixpoint instance_free (v : value) : bool :=
  match v with
  | VArr items => forallb instance_free items
  | VObj fields => forallb (fun kv => instance_free (snd kv)) fields
  | VInst _ _ => false
  | _ => true
  end.

(** The signatures [revive] tests before the [messages] signature. *)
Definition earlier_signature (keys : list string) (type : value) : bool :=
  isSuperset keys ["page_content"; "metadata"]
  || (isSuperset keys ["content"; "type"; "additional_kwargs"]
      && is_configured (message_class_of_type type))
  || (isSuperset keys ["text"; "generation_info"; "type"]
      && (is_string type "ChatGenerationChunk" || is_string type "ChatGeneration"
          || is_string type "GenerationChunk" || is_string type "Generation"))
  || (isSuperset keys ["tool"; "tool_input"; "log"; "type"]
      && is_string type "AgentAction")
  || (isSuperset keys ["return_values"; "log"; "type"]
      && is_string type "AgentFinish")
  || (isSuperset keys ["generations"; "run"; "type"]
      && is_string type "LLMResult").

Lemma collect_list_ok_iff {A} (items : list (result A)) (vs : list A) :
  collect_list items = Ok vs <-> Forall2 (fun r v => r = Ok v) items vs.
Proof.
  revert vs. induction items as [|r rest IH]; intros vs; simpl.
  - split; [intros [= <-]; constructor | by intros ->%Forall2_nil_inv_l].
  - destruct r as [v|m].
    + destruct (collect_list rest) as [vs'|m'] eqn:E.
      * split.
        -- intros [= <-]. constructor; [done|]. by apply IH.
        -- intros H. apply Forall2_cons_inv_l in H as (v' & vs'' & Hv & Hr & ->).
           apply IH in Hr. by simplify_eq.
      * split; [done|]. intros H.
        apply Forall2_cons_inv_l in H as (v' & vs'' & Hv & Hr & ->).
        apply IH in Hr. done.
    + split; [done|]. intros H.
      by apply Forall2_cons_inv_l in H as (v' & vs'' & Hv & _).
Qed.

Lemma assoc_revive_fields (RUN_KEY : string) (key : string) (fields : KVMap) :
  assoc key (revive_fields RUN_KEY fields)
  = option_map (revive RUN_KEY) (assoc key fields).
Proof.
  unfold revive_fields. induction fields as [|[k v] rest IH]; simpl; [done|].
  by destruct (String.eqb k key).
Qed.

Lemma serialize_fields_loop (_getType : Class -> string) (fields : KVMap) :
  (fix each (l : KVMap) : KVMap :=
     match l with
     | [] => []
     | (k, v) :: rest => (k, serialize _getType v) :: each rest
     end) fields
  = map (fun kv => (fst kv, serialize _getType (snd kv))) fields.
Proof. induction fields as [|[k v] rest IH]; simpl; [done|]. by rewrite IH. Qed.

Lemma serialize_instance_free (_getType : Class -> string) (v : value) :
  instance_free v = true -> serialize _getType v = v.
Proof.
  induction v as [| | | | | |items IH|fields IH|c fields IH]
    using value_nested_ind; try done.
  - intros Hf. simpl in *. f_equal.
    induction items as [|x rest IHrest]; [done|].
    simpl in Hf. apply andb_true_iff in Hf as [Hx Hrest].
    apply Forall_cons in IH as [IHx IH]. simpl.
    by rewrite (IHx Hx), (IHrest IH Hrest).
  - intros Hf. simpl. rewrite serialize_fields_loop. simpl in Hf. f_equal.
    induction fields as [|[k x] rest IHrest]; [done|].
    simpl in Hf. apply andb_true_iff in Hf as [Hx Hrest].
    apply Forall_cons in IH as [IHx IH]. simpl in *.
    by rewrite (IHx Hx), (IHrest IH Hrest).
Qed.

Lemma plain_instance_free (v : value) :
  plain v = true -> instance_free v = true.
Proof.
  induction v as [| | | | | |items IH|fields IH|c fields IH]
    using value_nested_ind; try done.
  - simpl. rewrite !forallb_forall. intros Hp x Hx.
    rewrite Forall_forall in IH. apply IH; [by apply list_elem_of_In | by apply Hp].
  - simpl. intros Hp. apply andb_true_iff in Hp as [_ Hp].
    rewrite forallb_forall in *. intros kv Hkv.
    rewrite Forall_forall in IH. apply IH; [by apply list_elem_of_In | by apply Hp].
Qed.

Section MarshallingLaws.
Variable _getType : Class -> string.
Variable RUN_KEY : string.

Local Arguments isSuperset : simpl never.
Local Arguments is_string : simpl never.
Local Arguments message_class_of_type : simpl never.

Ltac split_tests' :=
  repeat match goal with
    | |- context [if ?c then _ else _] =>
        let E := fresh "E" in
        destruct c eqn:E; rewrite ?E in *; simpl in *; try discriminate
    | |- context [match message_class_of_type ?t with _ => _ end] =>
        let E := fresh "E" in
        destruct (message_class_of_type t) eqn:E; rewrite ?E in *;
        simpl in *; try discriminate
    end.

(** X18.  [revive] works element by element on an array: it returns
    exactly when every element revives, and then returns the array of the
    revived elements, in order. *)
Theorem revive_array_elementwise (items : list value) (v' : value) :
  revive RUN_KEY (VArr items) = Ok v'
  <-> exists items',
        v' = VArr items'
        /\ Forall2 (fun x x' => revive RUN_KEY x = Ok x') items items'.
Proof.
  rewrite revive_arr. unfold revive_items. split.
  - destruct (collect_list (map (revive RUN_KEY) items)) as [items'|] eqn:E;
      [|done].
    intros [= <-]. exists items'. split; [done|].
    apply collect_list_ok_iff in E. by apply Forall2_fmap_l in E.
  - intros (items' & -> & H).
    assert (E : collect_list (map (revive RUN_KEY) items) = Ok items').
    { apply collect_list_ok_iff. by apply Forall2_fmap_l. }
    by rewrite E.
Qed.

(** X19.  [serialize] returns unchanged every value that holds no class
    instance: scalars, null, undefined, dates, and arrays and mappings of
    these. *)
Theorem serialize_plain_data_unchanged (v : value) :
  instance_free v = true -> serialize _getType v = v.
Proof. apply serialize_instance_free. Qed.

(** X20.  Round trip of plain data: a wire-form value none of whose
    mappings is captured by a signature of [revive] comes back unchanged
    from [revive(serialize(v))]. *)
Theorem revive_serialize_plain_data (v : value) :
  plain v = true -> revive RUN_KEY (serialize _getType v) = Ok v.
Proof.
  intros Hp. rewrite serialize_instance_free by (by apply plain_instance_free).
  by apply revive_plain.
Qed.

Lemma messages_are_arrays_get (fields : KVMap) (key : string) :
  forallb (fun kv => messages_are_arrays (snd kv)) fields = true ->
  messages_are_arrays (get fields key) = true.
Proof.
  unfold get. induction fields as [|[k v] rest IH]; simpl; [done|].
  intros H. apply andb_true_iff in H as [Hv Hrest].
  destruct (String.eqb k key); [done | by apply IH].
Qed.

(** X21.  A message whose discriminant [_getType()] is not one that
    [revive] recognises does not come back as a message:
    [revive(serialize(x))] is a plain mapping, the serialized fields each
    revived. *)
Theorem unrecognised_message_revives_plain (c : Class) (fields : KVMap) :
  isBaseMessage (VInst c fields) = true ->
  message_class_of_type (VStr (_getType c)) = None ->
  messages_are_arrays (VInst c fields) = true ->
  exists fields',
    revive RUN_KEY (serialize _getType (VInst c fields)) = Ok (VObj fields')
    /\ fields_revived RUN_KEY (serializedMessage _getType c fields) fields'.
Proof.
  intros Hmsg Htype Harr.
  assert (Hser : serialize _getType (VInst c fields)
                 = VObj (serializedMessage _getType c fields)).
  { simpl. simpl in Hmsg. by rewrite Hmsg. }
  rewrite Hser, revive_obj, revive_object_generic.
  2:{ unfold matches_signature, later_signature, serializedMessage.
      destruct (ToolMessage_isInstance c), (ChatMessage_isInstance c);
        cbn; by rewrite Htype. }
  simpl in Harr. apply andb_true_iff in Harr as [_ Harr].
  destruct (collect_all_ok (revive_fields RUN_KEY
                              (serializedMessage _getType c fields)))
    as (fields' & -> & Hf).
  { unfold revive_fields. apply Forall_fmap, Forall_forall.
    intros [k v] Hkv. simpl. apply revive_total.
    assert (Hget : forall key, messages_are_arrays (get fields key) = true)
      by (intros key; by apply messages_are_arrays_get).
    unfold serializedMessage in Hkv.
    destruct (ToolMessage_isInstance c), (ChatMessage_isInstance c);
      simpl in Hkv;
      repeat (apply elem_of_cons in Hkv as [Hkv|Hkv];
              [injection Hkv as -> ->; by rewrite ?Hget|]);
      by apply elem_of_nil in Hkv. }
  exists fields'. split; [done|]. unfold fields_revived, revive_fields in *.
  apply Forall2_fmap_l in Hf.
  eapply Forall2_impl; [exact Hf|]. by intros [k x] [k' x'].
Qed.

(** X22.  A mapping with an array under [messages] that no earlier
    signature captures is revived into a chat prompt value whose messages
    are the revived elements of that array; it fails exactly when one of
    them fails. *)
Theorem messages_revive_to_chat_prompt (obj : KVMap) (items : list value) :
  earlier_signature (Object_keys obj) (get obj "type") = false ->
  assoc "messages" obj = Some (VArr items) ->
  revive RUN_KEY (VObj obj)
  = match revive RUN_KEY (VArr items) with
    | Ok messages => Ok (VInst ChatPromptValue [("messages", messages)])
    | Throw m => Throw m
    end.
Proof.
  unfold earlier_signature. intros H Hm.
  repeat (apply orb_false_elim in H as [H ?]).
  assert (Hsup : isSuperset (Object_keys obj) ["messages"] = true).
  { apply isSuperset_single. by rewrite Hm. }
  assert (Hget : get obj "messages" = VArr items) by (unfold get; by rewrite Hm).
  assert (Hrev : revived_field (revive_fields RUN_KEY obj) "messages"
                 = revive RUN_KEY (VArr items)).
  { unfold revived_field. by rewrite assoc_revive_fields, Hm. }
  rewrite revive_obj. unfold revive_object. cbv zeta.
  rewrite Hsup, Hget, Hrev. unfold new.
  split_tests'; reflexivity.
Qed.
End MarshallingLaws.

(** X23.  [removeCallbacks] removes the [callbacks] property and nothing
    else: the result has no [callbacks], and every other property reads as
    before. *)
Theorem removeCallbacks_only_callbacks (options : KVMap) :
  NoDup (Object_keys options) ->
  assoc "callbacks" (removeCallbacks options) = None
  /\ forall key, key <> "callbacks" ->
       assoc key (removeCallbacks options) = assoc key options.
Proof.
  intros Hnd. split.
  - unfold removeCallbacks.
    induction options as [|[k v] rest IH]; simpl; [done|].
    simpl in Hnd. apply NoDup_cons in Hnd as [Hk Hnd].
    destruct (String.eqb k "callbacks") eqn:E.
    + apply String.eqb_eq in E. subst k.
      destruct (assoc "callbacks" rest) as [w|] eqn:Ea; [|done].
      exfalso. apply Hk. clear -Ea.
      induction rest as [|[k' v'] rest IH]; simpl in *; [done|].
      destruct (String.eqb k' "callbacks") eqn:E'.
      * apply String.eqb_eq in E'. subst. by left.
      * right. by apply IH.
    + simpl. rewrite E. by apply IH.
  - intros key Hne. unfold removeCallbacks.
    by apply assoc_remove_field_ne.
Qed.

(** ** Remote calls: [invoke] and the response of [_batch] *)

Definition property_of_nullish : string :=
  "TypeError: Cannot read properties of undefined or null".

(** [v.key] where [v] may be null or undefined, on which the read throws. *)
Definition read_property (v : value) (key : string) : result value :=
  match v with
  | VUndef | VNull => Throw property_of_nullish
  | _ => Ok (prop v key)
  end.

(** [v ?? fallback]. *)
Definition nullish_or (v fallback : value) : value :=
  match v with
  | VUndef | VNull => fallback
  | _ => v
  end.

Section RemoteInvoke.
Variable _getType : Class -> string.
Variable RUN_KEY : string.
Variable respond : Request -> result value.
Variable _separateRunnableConfigFromCallOptions : value -> KVMap * value.
Variable url : string.

(** [RemoteRunnable.invoke]. *)
Definition invoke (input options : value) : Http value :=
  fun issued =>
    let '(config, kwargs) := _separateRunnableConfigFromCallOptions options in
    match post _getType respond url "/invoke"
            (VObj [("input", input);
                   ("config", VObj (removeCallbacks config));
                   ("kwargs", nullish_or kwargs (VObj []))]) issued with
    | (issued', Throw m) => (issued', Throw m)
    | (issued', Ok json) =>
        match read_property json "output" with
        | Throw m => (issued', Throw m)
        | Ok output => (issued', revive RUN_KEY output)
        end
    end.

(** X24.  [invoke] issues exactly one request, a POST to [/invoke] whose
    [input] is the serialized input, and returns the revived [output] of
    the response; when the response is an object without [output], it
    returns undefined and raises nothing. *)
Theorem invoke_returns_revived_output (input options : value)
    (issued : list Request) :
  exists request,
    fst (invoke input options issued) = issued ++ [request]
    /\ req_method request = "POST"
    /\ req_path request = url +:+ "/invoke"
    /\ prop (req_body request) "input" = serialize _getType input
    /\ (forall fields, respond request = Ok (VObj fields) ->
        snd (invoke input options issued)
        = revive RUN_KEY (get fields "output"))
    /\ (forall fields, respond request = Ok (VObj fields) ->
        assoc "output" fields = None ->
        snd (invoke input options issued) = Ok VUndef).
Proof.
  unfold invoke, post.
  destruct (_separateRunnableConfigFromCallOptions options) as [config kwargs].
  eexists. split.
  { destruct (respond _) as [json|]; [|reflexivity].
    destruct (read_property json "output"); reflexivity. }
  split; [reflexivity|]. split; [reflexivity|]. split; [reflexivity|].
  split.
  - intros fields Hr. by rewrite Hr.
  - intros fields Hr Hnone. rewrite Hr. simpl. unfold get. by rewrite Hnone.
Qed.

(** X25.  Without [returnExceptions], [_batch] issues exactly one request,
    a POST to [/batch] whose [inputs] are the inputs serialized one by one;
    when the response is an object whose [output] is missing or falsy it
    throws "Invalid response from remote runnable", and otherwise it
    returns the revived [output]. *)
Theorem batch_request_checks_the_response (inputs : list value)
    (options' : option (list value)) (batchOptions : option RunnableBatchOptions)
    (issued : list Request) :
  asks_returnExceptions batchOptions = false ->
  let out := _batch _getType RUN_KEY respond
               _separateRunnableConfigFromCallOptions url inputs options'
               batchOptions issued in
  exists request,
    fst out = issued ++ [request]
    /\ req_method request = "POST"
    /\ req_path request = url +:+ "/batch"
    /\ prop (req_body request) "inputs"
       = VArr (map (serialize _getType) inputs)
    /\ (forall fields, respond request = Ok (VObj fields) ->
        falsy (get fields "output") = true ->
        snd out = Throw "Invalid response from remote runnable")
    /\ (forall fields, respond request = Ok (VObj fields) ->
        falsy (get fields "output") = false ->
        snd out = revive RUN_KEY (get fields "output")).
Proof.
  intros Hflag. unfold _batch, post. rewrite Hflag.
  eexists. split.
  { destruct (respond _) as [body|]; [|reflexivity].
    destruct (falsy (prop body "output")); reflexivity. }
  split; [reflexivity|]. split; [reflexivity|]. split; [reflexivity|].
  split.
  - intros fields Hr Hf. rewrite Hr. simpl. by rewrite Hf.
  - intros fields Hr Hf. rewrite Hr. simpl. by rewrite Hf.
Qed.
End RemoteInvoke.

Definition plain_payload : value :=
  VObj [("when", VDate "2024-01-01T00:00:00.000Z");
        ("scores", VArr [VNum 1; VNull; VStr "x"])].

Lemma serialize_plain_data_unchanged_witness :
  serialize _getType_core plain_payload = plain_payload.
Proof.
  apply (serialize_plain_data_unchanged _getType_core plain_payload).
  vm_compute. reflexivity.
Defined.

Lemma revive_serialize_plain_data_witness :
  revive RUN_KEY_core (serialize _getType_core plain_payload) = Ok plain_payload.
Proof.
  apply (revive_serialize_plain_data _getType_core RUN_KEY_core plain_payload).
  vm_compute. reflexivity.
Defined.

Lemma unrecognised_message_revives_plain_witness :
  exists fields',
    revive RUN_KEY_core
      (serialize _getType_core
         (VInst ChatMessage [("content", VStr "hi"); ("role", VStr "critic")]))
    = Ok (VObj fields').
Proof.
  destruct (unrecognised_message_revives_plain _getType_core RUN_KEY_core
              ChatMessage [("content", VStr "hi"); ("role", VStr "critic")]
              eq_refl eq_refl eq_refl) as (fields' & H & _).
  by exists fields'.
Defined.

Definition prompt_like : KVMap :=
  [("messages",
    VArr [VObj [("content", VStr "hi"); ("type", VStr "human");
                ("additional_kwargs", VObj [])]])].

Lemma messages_revive_to_chat_prompt_witness :
  revive RUN_KEY_core (VObj prompt_like)
  = Ok (VInst ChatPromptValue
          [("messages", VArr [VInst HumanMessage [("content", VStr "hi")]])]).
Proof.
  rewrite (messages_revive_to_chat_prompt RUN_KEY_core prompt_like
             [VObj [("content", VStr "hi"); ("type", VStr "human");
                    ("additional_kwargs", VObj [])]]);
    vm_compute; reflexivity.
Defined.

Lemma removeCallbacks_only_callbacks_witness :
  assoc "callbacks"
    (removeCallbacks [("tags", VArr []); ("callbacks", VArr [VNum 1])])
  = None.
Proof.
  apply (removeCallbacks_only_callbacks
           [("tags", VArr []); ("callbacks", VArr [VNum 1])]).
  repeat constructor; vm_compute; intros H;
    repeat (apply elem_of_cons in H as [H|H]; [discriminate|]);
    by apply elem_of_nil in H.
Defined.

Lemma batch_request_checks_the_response_witness :
  snd (_batch _getType_core RUN_KEY_core (fun _ => Ok (VObj []))
         (fun v => ([], v)) "http://localhost:8000" [VStr "a"] None None [])
  = Throw "Invalid response from remote runnable".
Proof.
  destruct (batch_request_checks_the_response _getType_core RUN_KEY_core
              (fun _ => Ok (VObj [])) (fun v => ([], v))
              "http://localhost:8000" [VStr "a"] None None [] eq_refl)
    as (request & _ & _ & _ & _ & H & _).
  exact (H [] eq_refl eq_refl).
Defined.

(** ** The entry and the key of an included run, and what [serialize] lets
    through *)

Section IncludedRun.
Variable toISOString : Z -> string.

Lemma key_recorded (key v : string) (keys : gmap string string) :
  exists k, lookup_property id (assign_property key v keys) key = Some k.
Proof.
  unfold lookup_property, assign_property.
  destruct (String.eqb key "__proto__") eqn:E.
  - apply String.eqb_eq in E as ->.
    destruct (keys !! "__proto__"); by eexists.
  - rewrite lookup_insert_eq. by eexists.
Qed.

(** X26.  The creation of a run that passes the filter and whose start
    time is a valid time value, on an open channel of a tracer that has its
    root, returns normally and writes exactly one patch: the addition at
    [/logs/<key>], where [key] is what [keyMapByRunId] now reads for the
    run, of an entry that carries the run's id and name, the text of its
    start time, a metadata that is neither null nor undefined, no streamed
    output and no final output yet.  The entry has [inputs] only in the
    streaming-events format, where it is the standardized inputs. *)
Theorem included_run_is_logged (run : Run.t) (h : LogStreamCallbackHandler)
    (r : string) :
  rootId h = Some r -> _includeRun h run = true -> writer_closed h = false ->
  valid_time (Run.start_time run) = true ->
  let out := onRunCreate toISOString run h in
  exists key entry,
    snd out = Ok tt
    /\ lookup_property id (keyMapByRunId (fst out)) (Run.id run) = Some key
    /\ written (fst out)
       = written h ++ [mkRunLogPatch [mkOp OpAdd ("/logs/" +:+ key) (VObj entry)]]
    /\ get entry "id" = VStr (Run.id run)
    /\ get entry "name" = VStr (Run.name run)
    /\ get entry "start_time" = VStr (toISOString (Run.start_time run))
    /\ get entry "metadata" <> VNull
    /\ get entry "metadata" <> VUndef
    /\ get entry "streamed_output" = VArr []
    /\ get entry "streamed_output_str" = VArr []
    /\ get entry "final_output" = VUndef
    /\ match _schemaFormat h with
       | original => assoc "inputs" entry = None
       | streaming_events =>
           _getStandardizedInputs run streaming_events
           = Ok (get entry "inputs")
       end.
Proof.
  intros Hr Hinc Hc Hv. simpl. rewrite onRunCreate_unfold.
  cbv [register_root bind gets ret]. rewrite Hr, Hinc.
  unfold Date_toISOString. rewrite Hv.
  destruct (new_logEntry toISOString run (_schemaFormat h)) as [entry|m] eqn:He;
    [|by apply new_logEntry_returns in He].
  destruct (key_recorded (Run.id run)
              (key_after (counterMapByRunName h) (Run.name run))
              (keyMapByRunId h)) as [key Hkey].
  destruct (assign_key_maps run h) as [_ Hkeys].
  rewrite <- Hkeys in Hkey.
  exists key, entry. unfold writer_write, logged_key.
  replace (writer_closed (assign_key run h)) with (writer_closed h)
    by reflexivity.
  rewrite Hc, Hkey. simpl.
  split; [done|]. split; [exact Hkey|]. split; [done|].
  assert (Hmeta : forall metadata : option value,
            match metadata with
            | None | Some VUndef | Some VNull => VObj []
            | Some m => m
            end <> VNull
            /\ match metadata with
               | None | Some VUndef | Some VNull => VObj []
               | Some m => m
               end <> VUndef).
  { by intros [[]|]. }
  destruct (Hmeta (Run.extra_metadata run)) as [Hnull Hundef].
  unfold new_logEntry in He. destruct (_schemaFormat h).
  - injection He as <-. by repeat split.
  - destruct (_getStandardizedInputs run streaming_events) as [inputs|] eqn:Hin;
      [|done].
    injection He as <-. repeat split; done.
Qed.

(** X30.  The creation of a run that passes the filter but whose start
    time is not a valid time value raises the error of [toISOString]: the
    counter and the key of the run are recorded as for any included run,
    and nothing is written. *)
Theorem invalid_start_time_is_raised (run : Run.t)
    (h : LogStreamCallbackHandler) (r : string) :
  rootId h = Some r -> _includeRun h run = true ->
  valid_time (Run.start_time run) = false ->
  onRunCreate toISOString run h = (assign_key run h, Throw invalid_time_value).
Proof.
  intros Hr Hinc Hv. rewrite onRunCreate_unfold.
  cbv [register_root bind gets ret]. rewrite Hr, Hinc.
  unfold Date_toISOString. by rewrite Hv.
Qed.

(** X29.  Starting from a fresh tracer, the n-th run that passes the filter
    and bears a given name which is not a member of [Object.prototype] is
    recorded (for an id other than [__proto__]) under the bare name when
    n = 1 and under [name:n] when n >= 2.  That record is not changed by
    later notifications, other than a creation with the same run id, and
    every run of the same name that passes the filter later is recorded
    under a different key. *)
Theorem key_of_nth_run_named (fields : LogStreamCallbackHandlerInput)
    (ns : list Notification) (run : Run.t) :
  let h0 := new_LogStreamCallbackHandler fields in
  let h := deliver toISOString h0 ns in
  let n := S (occurrences (Run.name run) (included_names toISOString h0 ns)) in
  let key :=
    if (n =? 1)%nat then Run.name run else Run.name run +:+ ":" +:+ pretty n in
  inherited (Run.name run) = None ->
  Run.id run <> "__proto__" ->
  creates_entry run h = true ->
  keyMapByRunId (fst (onRunCreate toISOString run h)) !! Run.id run = Some key
  /\ (forall ns',
        Forall (fun n' => ~ creates (Run.id run) n') ns' ->
        keyMapByRunId (deliver toISOString (fst (onRunCreate toISOString run h)) ns')
          !! Run.id run
        = Some key)
  /\ (forall ns' run',
        let h' := deliver toISOString (fst (onRunCreate toISOString run h)) ns' in
        creates_entry run' h' = true ->
        Run.name run' = Run.name run ->
        Run.id run' <> "__proto__" ->
        keyMapByRunId (fst (onRunCreate toISOString run' h')) !! Run.id run'
        <> Some key).
Proof.
  intros h0 h n key Hname Hid Hc.
  destruct (onRunCreate_maps toISOString run h Hc) as [Hcount Hkey].
  destruct (counter_counts toISOString ns h0 (Run.name run) Hname)
    as [Hnum Hn]; [by intros s; unfold h0; rewrite new_handler_counters|].
  fold h in Hnum, Hn.
  assert (H0 : count_of (counterMapByRunName h0) (Run.name run) = 0%nat)
    by reflexivity.
  rewrite H0 in Hn. simpl in Hn.
  destruct (counters_after_same _ _ Hname Hnum) as [Hafter Hkafter].
  rewrite Hafter in Hcount. rewrite Hkafter in Hkey.
  rewrite Hn in Hcount, Hkey. fold n in Hcount, Hkey.
  rewrite assign_property_not_proto in Hkey by done.
  assert (Hfirst :
    keyMapByRunId (fst (onRunCreate toISOString run h)) !! Run.id run
    = Some key).
  { by rewrite Hkey, lookup_insert_eq. }
  split; [done|]. split.
  - intros ns' Hns'. by rewrite key_stable.
  - intros ns' run' h' Hc' Hname' Hid'.
    destruct (onRunCreate_maps toISOString run' h' Hc') as [_ Hkey'].
    destruct (counter_counts toISOString ns'
                (fst (onRunCreate toISOString run h)) (Run.name run) Hname)
      as [Hnum' Hn'].
    { intros s. rewrite Hcount, lookup_insert_eq. done. }
    fold h' in Hnum', Hn'.
    assert (Hhere : count_of
                      (counterMapByRunName (fst (onRunCreate toISOString run h)))
                      (Run.name run) = n).
    { unfold count_of. by rewrite Hcount, lookup_insert_eq. }
    rewrite Hhere in Hn'.
    rewrite Hname' in Hkey'.
    destruct (counters_after_same _ _ Hname Hnum') as [_ Hkafter'].
    rewrite Hkafter', assign_property_not_proto in Hkey' by done.
    rewrite Hkey', lookup_insert_eq.
    intros [= Heq]. apply run_key_inj in Heq; [| lia | unfold n; lia ].
    lia.
Qed.
End IncludedRun.

Lemma included_run_is_logged_witness :
  exists key entry,
    written (fst (onRunCreate epoch_string (reverse_run None None) root_created))
    = written root_created
      ++ [mkRunLogPatch [mkOp OpAdd ("/logs/" +:+ key) (VObj entry)]]
    /\ get entry "id" = VStr "r1".
Proof.
  destruct (included_run_is_logged epoch_string (reverse_run None None)
              root_created "root")
    as (key & entry & _ & _ & Hw & Hid & _);
    [vm_compute; reflexivity .. |].
  by exists key, entry.
Defined.

Definition late_run : Run.t :=
  Run.mk "r1" "reverse" "chain" None None 8640000000000001 None
    [("input", VStr "hello")] None.

Lemma invalid_start_time_is_raised_witness :
  snd (onRunCreate epoch_string late_run root_created)
  = Throw invalid_time_value
  /\ written (fst (onRunCreate epoch_string late_run root_created))
     = written root_created
  /\ keyMapByRunId (fst (onRunCreate epoch_string late_run root_created))
     !! "r1" = Some "reverse".
Proof.
  rewrite (invalid_start_time_is_raised epoch_string late_run root_created
             "root"); [| vm_compute; reflexivity ..].
  vm_compute. done.
Defined.

Lemma key_of_nth_run_named_witness :
  keyMapByRunId
    (fst (onRunCreate epoch_string (plain_run "r2" "a")
            (deliver epoch_string (new_LogStreamCallbackHandler no_filter)
               [RunCreate (plain_run "root" "pipeline");
                RunCreate (plain_run "r1" "a")])))
  !! "r2" = Some "a:2".
Proof.
  apply (key_of_nth_run_named epoch_string no_filter
           [RunCreate (plain_run "root" "pipeline");
            RunCreate (plain_run "r1" "a")]
           (plain_run "r2" "a")).
  - vm_compute. reflexivity.
  - discriminate.
  - vm_compute. reflexivity.
Defined.

(** The values [serialize] turns into plain data: those whose messages
    hold plain data in the properties that are copied as they are. *)
Fixpoint serializable (v : value) : bool :=
  match v with
  | VArr items => forallb serializable items
  | VObj fields => forallb (fun kv => serializable (snd kv)) fields
  | VInst c fields =>
      if isBaseMessage (VInst c fields) then
        instance_free (get fields "content")
        && instance_free (get fields "additional_kwargs")
        && instance_free (get fields "name")
        && instance_free (get fields "tool_call_id")
        && instance_free (get fields "role")
      else forallb (fun kv => serializable (snd kv)) fields
  | _ => true
  end.

(** X27.  [serialize] copies the content, additional kwargs, name, tool
    call id and role of a message without serializing them; when these hold
    no class instance, in every message of the input, the value returned
    holds no class instance at all. *)
Theorem serialize_gives_plain_data (_getType : Class -> string) (v : value) :
  serializable v = true -> instance_free (serialize _getType v) = true.
Proof.
  induction v as [| | | | | |items IH|fields IH|c fields IH]
    using value_nested_ind; try done.
  - simpl. rewrite !forallb_forall. intros Hs x Hx.
    apply list_elem_of_In, list_elem_of_fmap in Hx as (y & -> & Hy).
    rewrite Forall_forall in IH. apply IH; [done|].
    apply Hs. by apply list_elem_of_In.
  - simpl. rewrite serialize_fields_loop, !forallb_forall. intros Hs kv Hkv.
    apply list_elem_of_In, list_elem_of_fmap in Hkv as ([k y] & -> & Hy).
    simpl. rewrite Forall_forall in IH. apply (IH (k, y)); [done|].
    apply (Hs (k, y)). by apply list_elem_of_In.
  - intros Hs. cbn [serialize]. cbn [serializable] in Hs.
    destruct (isBaseMessage (VInst c fields)) eqn:Hmsg.
    + repeat (apply andb_true_iff in Hs as [Hs ?]).
      unfold serializedMessage.
      destruct (ToolMessage_isInstance c), (ChatMessage_isInstance c);
        simpl; repeat (apply andb_true_iff; split); done.
    + simpl. rewrite serialize_fields_loop, !forallb_forall.
      rewrite forallb_forall in Hs. intros kv Hkv.
      apply list_elem_of_In, list_elem_of_fmap in Hkv as ([k y] & -> & Hy).
      simpl. rewrite Forall_forall in IH. apply (IH (k, y)); [done|].
      apply (Hs (k, y)). by apply list_elem_of_In.
Qed.

Lemma serialize_gives_plain_data_witness :
  instance_free (serialize _getType_core (VArr [greeting; VStr "x"])) = true.
Proof.
  apply (serialize_gives_plain_data _getType_core (VArr [greeting; VStr "x"])).
  vm_compute. reflexivity.
Defined.

(** ** The base URL of a remote runnable *)

(** [url.replace(/\/$/, "")], the url the constructor keeps: a slash at the
    very end of the string is removed. *)
Fixpoint remove_trailing_slash (url : string) : string :=
  match url with
  | EmptyString => EmptyString
  | String c rest =>
      match rest with
      | EmptyString => if Ascii.eqb c slash then EmptyString else url
      | String _ _ => String c (remove_trailing_slash rest)
      end
  end.

Lemma remove_trailing_slash_snoc (s : string) :
  remove_trailing_slash (s +:+ String slash EmptyString) = s.
Proof.
  induction s as [|c s IH]; [reflexivity|].
  change (String c s +:+ String slash "")
    with (String c (s +:+ String slash "")).
  simpl. rewrite IH. by destruct s.
Qed.

(** X28.  The constructor removes exactly one trailing slash from the base
    URL: a URL that ends with a slash loses that slash and nothing else,
    and a URL that does not end with a slash is kept as it is. *)
Theorem trailing_slash_is_removed (url : string) :
  remove_trailing_slash (url +:+ "/") = url
  /\ ((forall s, url <> s +:+ "/") -> remove_trailing_slash url = url).
Proof.
  split; [apply remove_trailing_slash_snoc|].
  induction url as [|c rest IH]; [done|]. intros Hno. simpl.
  destruct rest as [|c' rest'].
  - destruct (Ascii.eqb c slash) eqn:E; [|done].
    apply Ascii.eqb_eq in E. subst c. by destruct (Hno "").
  - f_equal. apply IH. intros s Hs. apply (Hno (String c s)).
    simpl. by rewrite Hs.
Qed.

Lemma trailing_slash_is_removed_witness :
  remove_trailing_slash "http://localhost:8000/chain/"
  = "http://localhost:8000/chain"
  /\ remove_trailing_slash "http://localhost:8000"
     = "http://localhost:8000".
Proof.
  split.
  - by destruct (trailing_slash_is_removed "http://localhost:8000/chain")
      as [H _].
  - destruct (trailing_slash_is_removed "http://localhost:8000") as [_ H].
    apply H. intros s Hs.
    assert (Hs' : s = "http://localhost:8000").
    { rewrite <- (remove_trailing_slash_snoc s).
      change (String slash "") with "/". by rewrite <- Hs. }
    subst s. by apply append_cons_ne in Hs.
Defined.
